(** * An ephemeral file-sharing server (server.js)

    A shallow embedding of the Express server: the record store kept in
    [files.json] ([loadDB], [saveDB]), the id and password helpers
    ([genId], [hashPwd]), the four routes ([upload], [meta], [download],
    [health]) and the periodic clean-up job ([cleanup]).

    The handlers run in a small state-and-exception monad over a [World]
    that holds everything the code reads or writes outside its own
    variables: the wall clock ([Date.now], one reading per call), the
    random source ([crypto.randomBytes]), the store file, the upload
    directory and the console.

    What the model takes for granted:
    - timestamps are integers ([Z]); the store file holds a store, is
      empty, is rejected by [JSON.parse] or is missing, and
      [JSON.parse (JSON.stringify DB)] is [DB];
    - [files.json] can always be written;
    - the store is an ordinary JavaScript object, so [DB[key]] also finds
      the members inherited from [Object.prototype];
    - SHA-256, [QRCode.toDataURL] and [path.basename] are parameters. *)

From stdpp Require Import gmap strings list fin_maps.
From Stdlib Require Import ZArith Ascii.
From Stdlib.Strings Require Import Byte.
From Stdlib Require DecimalString DecimalZ DecimalPos.

Local Open Scope Z_scope.

(** ** Data *)

(** One entry of the store, with the fields [upload] writes. [passwordHash]
    is [None] for JavaScript's [null]. *)
Record FileRecord : Type := mkRecord {
  id : string;
  filename : string;
  originalName : string;
  path : string;
  passwordHash : option string;
  uploadedAt : Z;
  expiresAt : Z
}.

(** The contents of a text file as [JSON.parse] sees it: the empty string,
    a text it rejects, or a text it reads as a store. [Encoded db] is also
    what [JSON.stringify db] writes: the records hold strings, integers
    and [null] only, which a round trip through JSON leaves as they are.
    A text that parses to something that is no store (a number, an array)
    is not represented. *)
Inductive text : Type :=
  | Blank
  | Garbled
  | Encoded (db : gmap string FileRecord).

(** JavaScript values that reach a response body. *)
Inductive value : Type :=
  | VUndefined
  | VNull
  | VBool (b : bool)
  | VNum (n : Z)
  | VStr (s : string).

Definition truthy (v : value) : bool :=
  match v with
  | VUndefined | VNull => false
  | VBool b => b
  | VNum n => negb (n =? 0)
  | VStr s => negb (String.eqb s "")
  end.

Definition opt_num (o : option Z) : value :=
  match o with Some n => VNum n | None => VUndefined end.

(** [null] or a string *)
Definition nullable (o : option string) : value :=
  match o with Some s => VStr s | None => VNull end.

(** [now > e], where [e] is a number or [undefined]; a comparison with
    [undefined] is false. *)
Definition js_gt (now : Z) (e : option Z) : bool :=
  match e with Some e => e <? now | None => false end.

(** ** Responses *)

Inductive body : Type :=
  | Send (message : string)
  | Json (members : list (string * value))
  | Attachment (name : string) (content : list byte).

Record response : Type := mkResponse { status : Z; payload : body }.

(** [res.json(obj)]: [JSON.stringify] leaves out the members whose value is
    [undefined]. *)
Definition defined (v : value) : bool :=
  match v with VUndefined => false | _ => true end.

Definition res_json (code : Z) (members : list (string * value)) : response :=
  mkResponse code (Json (filter (λ kv, Is_true (defined kv.2)) members)).

Definition res_send (code : Z) (message : string) : response :=
  mkResponse code (Send message).

(** ** Requests *)

(** [req.file] as multer's disk storage leaves it. *)
Record UploadedFile : Type := mkFile {
  file_filename : string;
  file_originalname : string;
  file_path : string
}.

Record Body : Type := mkBody { password : option string }.

Record Request : Type := mkRequest {
  params_id : string;
  req_body : option Body;
  req_file : option UploadedFile;
  protocol : string;
  host : string
}.

(** ** The world outside the handlers *)

Record World : Type := mkWorld {
  clock : nat → Z;                     (* the successive readings of Date.now() *)
  ticks : nat;                         (* how many have been taken *)
  entropy : nat → byte;                (* the byte stream behind crypto.randomBytes *)
  drawn : nat;                         (* how many bytes have been drawn *)
  db_file : option text;               (* files.json; None when the file is missing *)
  db_writes : nat;                     (* how often files.json has been written *)
  uploads : gmap string (list byte);   (* the stored files, by path *)
  busy : gset string;                  (* paths fs.unlinkSync fails on *)
  console : list string                (* console.log and console.error, latest first *)
}.

Definition set_ticks (n : nat) (w : World) : World :=
  mkWorld (clock w) n (entropy w) (drawn w) (db_file w) (db_writes w)
          (uploads w) (busy w) (console w).

Definition set_drawn (n : nat) (w : World) : World :=
  mkWorld (clock w) (ticks w) (entropy w) n (db_file w) (db_writes w)
          (uploads w) (busy w) (console w).

Definition write_db (t : text) (w : World) : World :=
  mkWorld (clock w) (ticks w) (entropy w) (drawn w) (Some t) (S (db_writes w))
          (uploads w) (busy w) (console w).

Definition set_uploads (u : gmap string (list byte)) (w : World) : World :=
  mkWorld (clock w) (ticks w) (entropy w) (drawn w) (db_file w) (db_writes w)
          u (busy w) (console w).

Definition print (line : string) (w : World) : World :=
  mkWorld (clock w) (ticks w) (entropy w) (drawn w) (db_file w) (db_writes w)
          (uploads w) (busy w) (line :: console w).

(** ** The monad: state, and exceptions for [throw] and [try]/[catch] *)

Inductive outcome (A : Type) : Type :=
  | Returned (a : A)
  | Thrown (e : string).
Arguments Returned {A} a.
Arguments Thrown {A} e.

Definition M (A : Type) : Type := World → outcome A * World.

Definition ret {A} (a : A) : M A := λ w, (Returned a, w).

Definition throw {A} (e : string) : M A := λ w, (Thrown e, w).

Definition bind {A B} (c : M A) (k : A → M B) : M B :=
  λ w, match c w with
       | (Returned a, w') => k a w'
       | (Thrown e, w') => (Thrown e, w')
       end.

Definition try_catch {A} (c : M A) (handler : string → M A) : M A :=
  λ w, match c w with
       | (Returned a, w') => (Returned a, w')
       | (Thrown e, w') => handler e w'
       end.

Notation "'let*' x ':=' c 'in' k" := (bind c (λ x, k))
  (at level 10, x name, c at level 100, k at level 200, only parsing).

(** ** The platform: clock, randomness, file system, console *)

Definition Date_now : M Z :=
  λ w, (Returned (clock w (ticks w)), set_ticks (S (ticks w)) w).

(** [crypto.randomBytes(n)] *)
Definition crypto_randomBytes (n : nat) : M (list byte) :=
  λ w, (Returned (map (entropy w) (seq (drawn w) n)), set_drawn (drawn w + n)%nat w).

Definition console_log (line : string) : M unit :=
  λ w, (Returned tt, print line w).

Definition console_error (line : string) : M unit :=
  λ w, (Returned tt, print line w).

(** [fs.readFileSync(DB_FILE, 'utf8')] *)
Definition fs_readFileSync_DB_FILE : M text :=
  λ w, match db_file w with
       | Some t => (Returned t, w)
       | None => (Thrown "ENOENT", w)
       end.

(** [fs.writeFileSync(DB_FILE, t, 'utf8')]. The file is created when the
    server starts (line 18) and is taken to stay writable. *)
Definition fs_writeFileSync_DB_FILE (t : text) : M unit :=
  λ w, (Returned tt, write_db t w).

(** [fs.existsSync(p)]: false on anything but the path of a stored file. *)
Definition fs_existsSync (p : value) : M bool :=
  λ w, match p with
       | VStr p => (Returned (bool_decide (is_Some (uploads w !! p))), w)
       | _ => (Returned false, w)
       end.

(** [fs.unlinkSync(p)] *)
Definition fs_unlinkSync (p : value) : M unit :=
  λ w, match p with
       | VStr p =>
           match uploads w !! p with
           | None => (Thrown "ENOENT", w)
           | Some _ =>
               if bool_decide (p ∈ busy w) then (Thrown "EBUSY", w)
               else (Returned tt, set_uploads (delete p (uploads w)) w)
           end
       | _ => (Thrown "ERR_INVALID_ARG_TYPE", w)
       end.

(** ** The store: [loadDB] and [saveDB] *)

Definition JSON_parse (t : text) : M (gmap string FileRecord) :=
  match t with
  | Encoded db => ret db
  | Blank | Garbled => throw "SyntaxError"
  end.

Definition JSON_stringify (db : gmap string FileRecord) : text := Encoded db.

(** [s || '{}'] *)
Definition or_empty_object (s : text) : text :=
  match s with Blank => Encoded ∅ | _ => s end.

Definition loadDB : M (gmap string FileRecord) :=
  try_catch
    (let* s := fs_readFileSync_DB_FILE in
     JSON_parse (or_empty_object s))
    (λ e, let* _ := console_error "Failed to read DB" in ret ∅).

Definition saveDB (obj : gmap string FileRecord) : M unit :=
  fs_writeFileSync_DB_FILE (JSON_stringify obj).

(** The store a world holds: what [loadDB] hands to its caller there. *)
Definition stored (w : World) : gmap string FileRecord :=
  match db_file w with
  | Some (Encoded db) => db
  | _ => ∅
  end.

(** The store file does not deserialize: it is missing or [JSON.parse]
    rejects it. The empty text is not such a case: [loadDB] parses ['{}']
    in its place. *)
Definition unreadable (w : World) : Prop :=
  db_file w = None ∨ db_file w = Some Garbled.

(** ** Object property lookup *)

(** The names every object parsed from JSON inherits from
    [Object.prototype]. [DB[key]] finds them when [DB] has no entry of its
    own under [key]; each is a function (or, for [__proto__], the
    prototype object): a truthy value without any of a record's fields. *)
Definition Object_prototype : list string :=
  [ "constructor"; "__defineGetter__"; "__defineSetter__"; "hasOwnProperty";
    "__lookupGetter__"; "__lookupSetter__"; "isPrototypeOf";
    "propertyIsEnumerable"; "toString"; "valueOf"; "__proto__";
    "toLocaleString" ].

(** What [DB[key]] evaluates to. *)
Inductive slot : Type :=
  | Undefined
  | Inherited
  | Own (f : FileRecord).

Definition get (DB : gmap string FileRecord) (key : string) : slot :=
  match DB !! key with
  | Some f => Own f
  | None => if bool_decide (key ∈ Object_prototype) then Inherited else Undefined
  end.

(** [!f] *)
Definition absent (f : slot) : bool :=
  match f with Undefined => true | _ => false end.

(** [f.id], [f.originalName], ...: [undefined] on an inherited member. The
    handlers read no field before they have tested [!f]. *)
Definition f_id (f : slot) : value :=
  match f with Own r => VStr (id r) | _ => VUndefined end.

Definition f_originalName (f : slot) : value :=
  match f with Own r => VStr (originalName r) | _ => VUndefined end.

Definition f_path (f : slot) : value :=
  match f with Own r => VStr (path r) | _ => VUndefined end.

Definition f_passwordHash (f : slot) : value :=
  match f with Own r => nullable (passwordHash r) | _ => VUndefined end.

Definition f_expiresAt (f : slot) : option Z :=
  match f with Own r => Some (expiresAt r) | _ => None end.

#[global] Instance value_eq_dec : EqDecision value.
Proof. solve_decision. Defined.

(** ** Helpers: [genId], and what the routes share *)

Definition hex_digit (n : N) : Ascii.ascii :=
  match String.get (N.to_nat n) "0123456789abcdef" with
  | Some c => c
  | None => "0"%char
  end.

Definition hex_of_byte (b : byte) : string :=
  let n := Byte.to_N b in
  String (hex_digit (n / 16)) (String (hex_digit (n mod 16)) "").

(** [buf.toString('hex')] *)
Fixpoint toString_hex (buf : list byte) : string :=
  match buf with
  | [] => ""
  | b :: rest => hex_of_byte b +:+ toString_hex rest
  end.

Definition genId : M string :=
  let* buf := crypto_randomBytes 6 in
  ret (toString_hex buf).

(** The fixed time to live: [10 * 60 * 1000] milliseconds. *)
Definition TTL : Z := 10 * 60 * 1000.

(** [try { if (fs.existsSync(p)) fs.unlinkSync(p); } catch (e) {}], as
    [download] (line 118) and the clean-up job (line 156) have it. *)
Definition try_unlink (p : value) : M unit :=
  try_catch
    (let* there := fs_existsSync p in
     if there then fs_unlinkSync p else ret tt)
    (λ e, ret tt).

(** [res.download(p, name, callback)] with the callback of lines 134-141:
    the file is streamed as an attachment, or the failure is logged and
    answered with 500. *)
Definition res_download (ident : string) (p name : value) : M response :=
  λ w, match p, name with
       | VStr p, VStr name =>
           match uploads w !! p with
           | Some content =>
               (Returned (mkResponse 200 (Attachment name content)),
                print ("Downloaded id=" +:+ ident +:+ " file=" +:+ name) w)
           | None =>
               (Returned (res_send 500 "Download failed"), print "Download error" w)
           end
       | _, _ => (Thrown "ERR_INVALID_ARG_TYPE", w)
       end.

(** [a || b], where [b] is evaluated only when [a] is falsy. *)
Definition js_or_else (a : value) (b : M value) : M value :=
  if truthy a then ret a else b.

(** ** Sample data

    Stand-ins for the three library functions, and a few worlds and
    requests on which the properties below are exercised. *)

Definition sha0 (s : string) : string := "sha256:" +:+ s.

Definition qr0 (url : string) : option string :=
  Some ("data:image/png;base64," +:+ url).

(** The part of a path after its last ['/']. *)
Fixpoint last_segment (p acc : string) : string :=
  match p with
  | EmptyString => acc
  | String c rest =>
      if Ascii.eqb c "/" then last_segment rest ""
      else last_segment rest (acc +:+ String c "")
  end.

Definition basename0 (p : string) : string := last_segment p "".

(** A world with the given clock and store, whose random source yields
    the byte 0x2a for ever, so that [genId] returns ["2a2a2a2a2a2a"]. *)
Definition world (clk : nat → Z) (DB : gmap string FileRecord)
    (files : gmap string (list byte)) : World :=
  mkWorld clk 0 (λ _, x2a) 0 (Some (Encoded DB)) 0 files ∅ [].

Definition ticking (start : Z) (n : nat) : Z := start + Z.of_nat n.

Definition stopped (t : Z) (n : nat) : Z := t.

(** A record protected by the password ["abc"], and one without a password
    whose original name is empty. *)
Definition notes : FileRecord :=
  {| id := "2a2a2a2a2a2a"; filename := "1-2.txt"; originalName := "notes.txt";
     path := "uploads/1-2.txt"; passwordHash := Some "sha256:abc";
     uploadedAt := 1001; expiresAt := 601000 |}.

Definition nameless : FileRecord :=
  {| id := "2a2a2a2a2a2a"; filename := "1-2.txt"; originalName := "";
     path := "uploads/1-2.txt"; passwordHash := None;
     uploadedAt := 1001; expiresAt := 601000 |}.

Definition on_disk : gmap string (list byte) :=
  {[ "uploads/1-2.txt" := [x68; x69] ]}.

Definition request (ident : string) (pwd : option string) : Request :=
  mkRequest ident (Some (mkBody pwd)) None "http" "localhost:3000".

Definition upload_request (pwd : option string) : Request :=
  mkRequest "" (Some (mkBody pwd))
    (Some (mkFile "1-2.txt" "notes.txt" "uploads/1-2.txt")) "http" "localhost:3000".

(** The store is empty; the clock advances by a millisecond per reading. *)
Definition fresh : World := world (ticking 1000) ∅ ∅.

(** [notes] is in the store and not expired. *)
Definition shared : World :=
  world (ticking 2000) {[ "2a2a2a2a2a2a" := notes ]} on_disk.

(** [notes] is in the store and has expired. *)
Definition stale : World :=
  world (ticking 700000) {[ "2a2a2a2a2a2a" := notes ]} on_disk.

(** [notes] is in the store and the clock stands at its [expiresAt]. *)
Definition on_the_dot : World :=
  world (stopped 601000) {[ "2a2a2a2a2a2a" := notes ]} on_disk.

(** [nameless] is in the store and not expired. *)
Definition unnamed : World :=
  world (ticking 2000) {[ "2a2a2a2a2a2a" := nameless ]} on_disk.

(** More sample worlds: [notes] is in the store but its file is not on
    disk; and a store file [JSON.parse] rejects. *)
Definition dangling : World :=
  world (ticking 2000) {[ "2a2a2a2a2a2a" := notes ]} ∅.

Definition corrupt : World :=
  mkWorld (ticking 1000) 0 (λ _, x2a) 0 (Some Garbled) 0 ∅ ∅ [].

(** A record under an id the random source of [world] never spells, and a
    world in which it has expired. *)
Definition archive : FileRecord :=
  {| id := "0123456789ab"; filename := "3-4.txt"; originalName := "archive.txt";
     path := "uploads/3-4.txt"; passwordHash := None;
     uploadedAt := 1001; expiresAt := 601000 |}.

Definition outdated : World :=
  world (ticking 700000) {[ "0123456789ab" := archive ]}
    {[ "uploads/3-4.txt" := [x68; x69] ]}.

(** ** Reading an id back

    The inverse of [toString_hex], to state that an id determines the
    bytes it was made from. *)
Definition hex_value (c : Ascii.ascii) : option N :=
  match String.index 0 (String c "") "0123456789abcdef" with
  | Some n => Some (N.of_nat n)
  | None => None
  end.

Fixpoint parse_hex (s : string) : option (list byte) :=
  match s with
  | EmptyString => Some []
  | String hi (String lo rest) =>
      match hex_value hi, hex_value lo, parse_hex rest with
      | Some h, Some l, Some buf =>
          match Byte.of_N (16 * h + l) with
          | Some b => Some (b :: buf)
          | None => None
          end
      | _, _, _ => None
      end
  | String _ EmptyString => None
  end.

(** The characters of [toString('hex')]. *)
Definition is_hex_digit (c : Ascii.ascii) : bool :=
  match hex_value c with Some _ => true | None => false end.

Fixpoint all_chars (P : Ascii.ascii → bool) (s : string) : bool :=
  match s with
  | EmptyString => true
  | String c rest => P c && all_chars P rest
  end.

(** ** Numbers in template literals *)

(** [`${n}`] for an integer [n]: its decimal digits, with a sign when it is
    negative. *)
Definition decimal (n : Z) : string :=
  DecimalString.NilZero.string_of_int (Z.to_int n).

Definition is_digit (c : Ascii.ascii) : bool :=
  ((48 <=? N_of_ascii c) && (N_of_ascii c <=? 57))%N.

(** ** The names multer stores files under (lines 34-40)

    [extname] is [path.extname]; [rnd] is the value of
    [Math.round(Math.random() * 1e9)], an integer between 0 and 10^9 for
    which the world has no source of its own. *)
Definition storage_filename (extname : string → string) (rnd : Z)
    (originalname : string) : M string :=
  let ext := extname originalname in
  let* now := Date_now in
  ret (decimal now +:+ "-" +:+ decimal rnd +:+ ext).

(** What [path.extname] returns: nothing, or a dot and what follows it. *)
Definition extension (e : string) : Prop :=
  e = "" ∨ ∃ rest : string, e = String "." rest.

(** A stand-in for [path.extname]: from the last dot on. *)
Fixpoint last_dot (p : string) (acc : option string) : string :=
  match p with
  | EmptyString => match acc with Some e => e | None => "" end
  | String c rest =>
      if Ascii.eqb c "." then last_dot rest (Some ".")
      else last_dot rest (option_map (λ e, e +:+ String c "") acc)
  end.

Definition extname0 (p : string) : string := last_dot p None.

(** ** The upload page (public/script.js) *)

(** The binding of [const ti] (line 52): not initialised until its
    declaration has been evaluated, then the handle of the interval, which
    runs until [clearInterval]. *)
Inductive binding : Type :=
  | Uninitialised
  | Handle (running : bool).

(** What the script shows and keeps. *)
Record Page : Type := mkPage {
  status_text : string;          (* status.textContent *)
  link_href : string;            (* downloadLink.href *)
  link_text : string;            (* downloadLink.textContent *)
  qr_src : string;               (* qr.src *)
  result_hidden : bool;          (* result.classList has 'hidden' *)
  expiryText : string;           (* expiryText.textContent *)
  error_text : string;           (* error.textContent *)
  error_hidden : bool;           (* error.classList has 'hidden' *)
  ti : binding;
  page_console : list string
}.

Definition set_expiryText (t : string) (pg : Page) : Page :=
  mkPage (status_text pg) (link_href pg) (link_text pg) (qr_src pg)
         (result_hidden pg) t (error_text pg) (error_hidden pg) (ti pg)
         (page_console pg).

Definition set_ti (b : binding) (pg : Page) : Page :=
  mkPage (status_text pg) (link_href pg) (link_text pg) (qr_src pg)
         (result_hidden pg) (expiryText pg) (error_text pg) (error_hidden pg) b
         (page_console pg).

Definition set_error_hidden (h : bool) (pg : Page) : Page :=
  mkPage (status_text pg) (link_href pg) (link_text pg) (qr_src pg)
         (result_hidden pg) (expiryText pg) (error_text pg) h (ti pg)
         (page_console pg).

(** [error.textContent = t; error.classList.remove('hidden')] *)
Definition show_error (t : string) (pg : Page) : Page :=
  mkPage (status_text pg) (link_href pg) (link_text pg) (qr_src pg)
         (result_hidden pg) (expiryText pg) t false (ti pg) (page_console pg).

(** The body of the reply to [/upload], as [res.json()] gives it. *)
Record UploadData : Type := mkData {
  data_fileUrl : string;
  data_qrData : string;
  data_expiresAt : Z
}.

(** Lines 36-40: the result panel is filled in and shown. *)
Definition show_link (data : UploadData) (pg : Page) : Page :=
  mkPage "✅ File uploaded successfully!" (data_fileUrl data) "🔗 Download Link"
         (data_qrData data) false (expiryText pg) (error_text pg)
         (error_hidden pg) (ti pg) (page_console pg).

(** [updateTimer] (lines 44-50), called when the page's clock reads [now]. *)
Definition updateTimer (expires now : Z) (pg : Page) : outcome unit * Page :=
  let left := Z.max 0 (expires - now) in
  if left <=? 0 then
    let pg := set_expiryText "Expired" pg in
    match ti pg with
    | Uninitialised => (Thrown "ReferenceError", pg)
    | Handle _ => (Returned tt, set_ti (Handle false) pg)
    end
  else
    let mins := left / 60000 in
    let secs := (left mod 60000) / 1000 in
    (Returned tt, set_expiryText (decimal mins +:+ "m " +:+ decimal secs +:+ "s") pg).

(** The [catch] of lines 54-58. *)
Definition upload_failed (err : string) (pg : Page) : Page :=
  show_error "Upload failed."
    (mkPage (status_text pg) (link_href pg) (link_text pg) (qr_src pg)
            (result_hidden pg) (expiryText pg) (error_text pg) (error_hidden pg)
            (ti pg) (err :: page_console pg)).

(** What [fetch('/upload', ...)] and the reading of its reply come to: the
    request fails, the reply is not ok, or the reply is ok and carries the
    data. *)
Inductive reply : Type :=
  | Unreachable
  | Not_ok (message : string)
  | Ok (data : UploadData).

(** Lines 34-52, inside the [try]. The block has a binding [ti] of its
    own, not yet initialised; the panel is shown, [updateTimer] is called
    once, and only then is [ti] bound to the interval. (The page is
    modelled for one submission: an interval still running from an earlier
    one is not represented.) *)
Definition show_result (data : UploadData) (now : Z) (pg : Page) : Page :=
  match updateTimer (data_expiresAt data) now
          (show_link data (set_ti Uninitialised pg)) with
  | (Returned _, pg) => set_ti (Handle true) pg
  | (Thrown err, pg) => upload_failed err pg
  end.

(** The submit handler (lines 13-59). [chosen] says whether a file was
    chosen; [now] is the page's clock when the reply has arrived. *)
Definition submit (chosen : bool) (r : reply) (now : Z) (pg : Page) : Page :=
  let pg := set_error_hidden true pg in
  if negb chosen then show_error "Please choose a file first." pg
  else
    match r with
    | Ok data => show_result data now pg
    | Not_ok message =>
        upload_failed (if truthy (VStr message) then message else "Upload failed") pg
    | Unreachable => upload_failed "TypeError" pg
    end.

(** One firing of the interval, at [now]: [updateTimer] runs if the
    interval has not been cleared. *)
Definition interval_fires (expires now : Z) (pg : Page) : Page :=
  match ti pg with
  | Handle true => (updateTimer expires now pg).2
  | _ => pg
  end.

(** The interval firing at each of the readings [nows] in turn. *)
Definition interval_run (expires : Z) (nows : list Z) (pg : Page) : Page :=
  foldl (λ pg now, interval_fires expires now pg) pg nows.

(** A page before anything was submitted. *)
Definition blank_page : Page :=
  mkPage "" "" "" "" true "" "" true Uninitialised [].

(** A QR encoder that fails, and the data of a reply to [/upload]. *)
Definition no_qr (url : string) : option string := None.

Definition reply_data : UploadData :=
  mkData "http://localhost:3000/download.html?id=2a2a2a2a2a2a"
         "data:image/png;base64,AAAA" 601000.

(** A closed, decidable goal, settled by evaluation. *)
Ltac by_computation :=
  match goal with
  | |- ?P => exact (bool_decide_unpack P (eq_refl : bool_decide P = true) : P)
           || (apply (bool_decide_unpack P); vm_compute; exact I)
  end.

Section Server.

(** The libraries the server calls: the SHA-256 digest in hexadecimal
    ([crypto.createHash('sha256').update(p).digest('hex')]),
    [QRCode.toDataURL] ([None] when its promise is rejected) and
    [path.basename]. *)
Variable sha256_hex : string → string.
Variable QRCode_toDataURL : string → option string.
Variable basename : string → string.

Set Default Proof Using "Type".

(** [hashPwd(p)] for [p] a string or [null]. *)
Definition hashPwd (p : option string) : option string :=
  match p with
  | None => None
  | Some s => if truthy (VStr s) then Some (sha256_hex s) else None
  end.

(** [path.basename(p)] *)
Definition path_basename (p : value) : M value :=
  match p with
  | VStr p => ret (VStr (basename p))
  | _ => throw "ERR_INVALID_ARG_TYPE"
  end.

(** [await QRCode.toDataURL(url)] *)
Definition await_QRCode_toDataURL (url : string) : M string :=
  match QRCode_toDataURL url with
  | Some data => ret data
  | None => throw "QRCode"
  end.

(** [req.body.password], which throws when [req.body] is undefined. *)
Definition body_password (req : Request) : M (option string) :=
  match req_body req with
  | Some b => ret (password b)
  | None => throw "TypeError"
  end.

(** [p || null] *)
Definition or_null (p : option string) : option string :=
  match p with
  | Some s => if truthy (VStr s) then Some s else None
  | None => None
  end.

(** [(req.body && req.body.password) || ''] *)
Definition provided_password (req : Request) : string :=
  match req_body req with
  | Some b => match password b with Some s => s | None => "" end
  | None => ""
  end.

(** ** The routes *)

(** [POST /upload], after multer has stored the file (lines 61-93). *)
Definition upload (req : Request) : M response :=
  try_catch
    (match req_file req with
     | None => ret (res_json 400 [("error", VStr "No file uploaded")])
     | Some file =>
         let* DB := loadDB in
         let* ident := genId in
         let* now := Date_now in
         let expires := now + 10 * 60 * 1000 in
         let* p := body_password req in
         let pwd := or_null p in
         let hash := if truthy (nullable pwd) then hashPwd pwd else None in
         let* uploaded := Date_now in
         let DB := <[ ident := {| id := ident;
                                  filename := file_filename file;
                                  originalName := file_originalname file;
                                  path := file_path file;
                                  passwordHash := hash;
                                  uploadedAt := uploaded;
                                  expiresAt := expires |} ]> DB in
         let* _ := saveDB DB in
         let fileUrl :=
           protocol req +:+ "://" +:+ host req +:+ "/download.html?id=" +:+ ident in
         let* qrData := await_QRCode_toDataURL fileUrl in
         let* _ := console_log
                     ("Uploaded " +:+ file_originalname file +:+ " -> id=" +:+ ident) in
         ret (res_json 200 [("message", VStr "uploaded"); ("id", VStr ident);
                            ("fileUrl", VStr fileUrl); ("qrData", VStr qrData);
                            ("expiresAt", VNum expires)])
     end)
    (λ err,
       let* _ := console_error "Upload error:" in
       ret (res_json 500 [("error", VStr "Server error during upload")])).

(** [GET /meta/:id] (lines 96-106). *)
Definition meta (req : Request) : M response :=
  let* DB := loadDB in
  let f := get DB (params_id req) in
  if absent f then ret (res_json 404 [("error", VStr "Not found or expired")])
  else
    ret (res_json 200 [("id", f_id f);
                       ("originalName", f_originalName f);
                       ("expiresAt", opt_num (f_expiresAt f));
                       ("passwordProtected", VBool (truthy (f_passwordHash f)))]).

(** The tail of [download] (lines 132-141). *)
Definition stream (ident : string) (f : slot) : M response :=
  let* sendName := js_or_else (f_originalName f) (path_basename (f_path f)) in
  res_download ident (f_path f) sendName.

(** [POST /download/:id] (lines 109-142). *)
Definition download (req : Request) : M response :=
  let ident := params_id req in
  let* DB := loadDB in
  let f := get DB ident in
  if absent f then ret (res_send 404 "Invalid or expired link")
  else
    let* now := Date_now in
    if js_gt now (f_expiresAt f) then
      let* _ := try_unlink (f_path f) in
      let DB := delete ident DB in
      let* _ := saveDB DB in
      ret (res_send 410 "Link expired")
    else if truthy (f_passwordHash f) then
      let provided := provided_password req in
      if bool_decide (nullable (hashPwd (Some provided)) ≠ f_passwordHash f)
      then ret (res_send 401 "Invalid password")
      else stream ident f
    else stream ident f.

(** [GET /health] (lines 145-148). *)
Definition health : M response :=
  let* DB := loadDB in
  ret (res_json 200 [("ok", VBool true); ("stored", VNum (Z.of_nat (size DB)))]).

(** The body of the loop of the clean-up job (lines 154-161), over the
    entries [Object.entries(DB)] listed before the loop starts. *)
Fixpoint cleanup_loop (entries : list (string * FileRecord))
    (DB : gmap string FileRecord) (changed : bool)
    : M (gmap string FileRecord * bool) :=
  match entries with
  | [] => ret (DB, changed)
  | (ident, f) :: rest =>
      let* now := Date_now in
      if js_gt now (Some (expiresAt f)) then
        let* _ := try_unlink (VStr (path f)) in
        let* _ := console_log ("Auto-deleted expired file id=" +:+ ident) in
        cleanup_loop rest (delete ident DB) true
      else cleanup_loop rest DB changed
  end.

(** One run of the clean-up job (lines 151-163). [Object.entries] lists the
    entries of the object itself, never an inherited member; [map_to_list]
    stands for it. The order in which the entries come is immaterial below:
    the loop is specified for any list of entries ([cleanup_loop_spec]). *)
Definition cleanup : M unit :=
  let* DB := loadDB in
  let* swept := cleanup_loop (map_to_list DB) DB false in
  if swept.2 then saveDB swept.1 else ret tt.

(** Express answers 500 when a handler throws. *)
Definition respond (handler : M response) (w : World) : response * World :=
  match handler w with
  | (Returned res, w') => (res, w')
  | (Thrown e, w') => (res_send 500 "Internal Server Error", w')
  end.

(** ** The server as a transition system *)

Inductive event : Type :=
  | POST_upload (req : Request) (content : list byte)
  | GET_meta (req : Request)
  | POST_download (req : Request)
  | GET_health
  | Interval.

(** multer's disk storage: the uploaded bytes are on disk, under
    [req.file.path], before the handler of [/upload] runs. *)
Definition multer_single (req : Request) (content : list byte) (w : World) : World :=
  match req_file req with
  | Some file => set_uploads (<[ file_path file := content ]> (uploads w)) w
  | None => w
  end.

Definition step (e : event) (w : World) : World :=
  match e with
  | POST_upload req content => (respond (upload req) (multer_single req content w)).2
  | GET_meta req => (respond (meta req) w).2
  | POST_download req => (respond (download req) w).2
  | GET_health => (respond health w).2
  | Interval => (cleanup w).2
  end.

Definition run (events : list event) (w : World) : World :=
  foldl (λ w e, step e w) w events.

(** ** Notions the properties are stated with *)

(** [loadDB] can read the store file. *)
Definition readable (w : World) : bool :=
  match db_file w with
  | Some Blank | Some (Encoded _) => true
  | _ => false
  end.

(** The world [loadDB] leaves: a warning on the console when the file
    cannot be read, and nothing else. *)
Definition after_load (w : World) : World :=
  if readable w then w else print "Failed to read DB" w.

(** The id the next call of [genId] returns. *)
Definition next_id (w : World) : string :=
  toString_hex (map (entropy w) (seq (drawn w) 6)).

(** A record is expired at [now] when [now > expiresAt], the test of
    lines 116 and 155; it is live otherwise. *)
Definition expired (now : Z) (f : FileRecord) : Prop := expiresAt f < now.

#[global] Instance expired_dec (now : Z) (f : FileRecord) : Decision (expired now f).
Proof. unfold expired. apply _. Defined.

Definition live (now : Z) (DB : gmap string FileRecord) : gmap string FileRecord :=
  filter (λ kv, ¬ expired now kv.2) DB.

(** The members of a JSON response. *)
Definition keys (res : response) : list string :=
  match payload res with
  | Json members => members.*1
  | _ => []
  end.

(** The metadata of a record: the four members the route sends. *)
Definition metadata (f : FileRecord) : response :=
  res_json 200 [("id", VStr (id f));
                ("originalName", VStr (originalName f));
                ("expiresAt", VNum (expiresAt f));
                ("passwordProtected", VBool (truthy (nullable (passwordHash f))))].

(** The record [upload] stores for a request that carries [file] and the
    password field [p]: the id is the one [genId] draws, the expiry is
    computed from the first reading of the clock and [uploadedAt] is the
    second reading. *)
Definition new_record (w : World) (file : UploadedFile) (p : option string)
    : FileRecord :=
  {| id := next_id w;
     filename := file_filename file;
     originalName := file_originalname file;
     path := file_path file;
     passwordHash :=
       (if truthy (nullable (or_null p)) then hashPwd (or_null p) else None);
     uploadedAt := clock w (S (ticks w));
     expiresAt := clock w (ticks w) + 10 * 60 * 1000 |}.

(** The world [try_unlink (VStr p)] leaves: the file is gone when it was
    there and could be removed; otherwise nothing has changed. *)
Definition after_unlink (p : string) (w : World) : World :=
  match uploads w !! p with
  | Some _ => if bool_decide (p ∈ busy w) then w
              else set_uploads (delete p (uploads w)) w
  | None => w
  end.

(** The name [download] suggests for the file of a record (line 133). *)
Definition sendName (f : FileRecord) : string :=
  if truthy (VStr (originalName f)) then originalName f else basename (path f).

(** The password check of [download] lets the request through (lines
    125-130): the record has no digest, or the digest of the password
    provided is the record's. *)
Definition admitted (req : Request) (f : FileRecord) : Prop :=
  truthy (nullable (passwordHash f)) = false ∨
  hashPwd (Some (provided_password req)) = passwordHash f.

(** What no handler touches: the clock and the random source themselves
    and the set of files that cannot be removed; and of the random source
    no handler gives anything back. *)
Definition frame (w w' : World) : Prop :=
  clock w' = clock w ∧ entropy w' = entropy w ∧ busy w' = busy w ∧
  (drawn w ≤ drawn w')%nat.

Definition framed {A} (c : M A) : Prop := ∀ w : World, frame w (c w).2.

(** From [w] on, [genId] does not return [k]: no six bytes of the random
    source that are still to be drawn spell it. *)
Definition never_issued (w : World) (k : string) : Prop :=
  ∀ n : nat, (drawn w ≤ n)%nat → toString_hex (map (entropy w) (seq n 6)) ≠ k.

(** The keys of the store are ids issued by [genId]: twelve characters
    long, which none of the twelve names of [Object_prototype] is. Every
    store the server builds is of this kind. *)
Definition issued_ids (DB : gmap string FileRecord) : Prop :=
  ∀ k : string, is_Some (DB !! k) → String.length k = 12%nat.

(** ** The record store *)

Lemma loadDB_eq (w : World) : loadDB w = (Returned (stored w), after_load w).
Proof.
  unfold loadDB, stored, after_load, readable, try_catch, bind,
    fs_readFileSync_DB_FILE.
  destruct (db_file w) as [[| |db]|]; reflexivity.
Qed.

Lemma unreadable_readable (w : World) : unreadable w ↔ readable w = false.
Proof.
  unfold unreadable, readable. split.
  - intros [E|E]; rewrite E; reflexivity.
  - destruct (db_file w) as [[| |db]|]; intros E; try discriminate; auto.
Qed.

Lemma stored_after_load (w : World) : stored (after_load w) = stored w.
Proof. unfold after_load. destruct (readable w); reflexivity. Qed.

Lemma db_file_after_load (w : World) : db_file (after_load w) = db_file w.
Proof. unfold after_load. destruct (readable w); reflexivity. Qed.

Lemma db_writes_after_load (w : World) : db_writes (after_load w) = db_writes w.
Proof. unfold after_load. destruct (readable w); reflexivity. Qed.

Lemma uploads_after_load (w : World) : uploads (after_load w) = uploads w.
Proof. unfold after_load. destruct (readable w); reflexivity. Qed.

Lemma busy_after_load (w : World) : busy (after_load w) = busy w.
Proof. unfold after_load. destruct (readable w); reflexivity. Qed.

Lemma clock_after_load (w : World) : clock (after_load w) = clock w.
Proof. unfold after_load. destruct (readable w); reflexivity. Qed.

Lemma ticks_after_load (w : World) : ticks (after_load w) = ticks w.
Proof. unfold after_load. destruct (readable w); reflexivity. Qed.

Lemma entropy_after_load (w : World) : entropy (after_load w) = entropy w.
Proof. unfold after_load. destruct (readable w); reflexivity. Qed.

Lemma drawn_after_load (w : World) : drawn (after_load w) = drawn w.
Proof. unfold after_load. destruct (readable w); reflexivity. Qed.

Lemma next_id_after_load (w : World) : next_id (after_load w) = next_id w.
Proof. unfold next_id. now rewrite entropy_after_load, drawn_after_load. Qed.

Lemma after_load_present (w : World) (k : string) (f : FileRecord) :
  stored w !! k = Some f → after_load w = w.
Proof.
  unfold stored, after_load, readable.
  destruct (db_file w) as [[| |db]|]; try reflexivity;
    rewrite lookup_empty; discriminate.
Qed.

Lemma saveDB_eq (DB : gmap string FileRecord) (w : World) :
  saveDB DB w = (Returned tt, write_db (Encoded DB) w).
Proof. reflexivity. Qed.

Lemma stored_write_db (DB : gmap string FileRecord) (w : World) :
  stored (write_db (Encoded DB) w) = DB.
Proof. reflexivity. Qed.

(** C9. When the contents of the store file fail to deserialize, [loadDB]
    returns the empty mapping and logs a warning, changing nothing else;
    and in no world at all does [loadDB] throw, so no caller can observe a
    deserialization error. *)
Theorem loadDB_never_fails :
  (∀ w : World, unreadable w →
     loadDB w = (Returned ∅, print "Failed to read DB" w)) ∧
  (∀ w : World, ∃ DB w', loadDB w = (Returned DB, w')).
Proof.
  split.
  - intros w Hw. rewrite loadDB_eq. unfold after_load.
    apply unreadable_readable in Hw as Hr. rewrite Hr.
    unfold stored. destruct Hw as [E|E]; rewrite E; reflexivity.
  - intros w. exists (stored w), (after_load w). apply loadDB_eq.
Qed.

(** ** Property lookup and ids *)

Lemma get_own (DB : gmap string FileRecord) (k : string) (f : FileRecord) :
  DB !! k = Some f → get DB k = Own f.
Proof. unfold get. now intros ->. Qed.

Lemma get_undefined (DB : gmap string FileRecord) (k : string) :
  DB !! k = None → k ∉ Object_prototype → get DB k = Undefined.
Proof.
  unfold get. intros -> Hk. now rewrite bool_decide_eq_false_2.
Qed.

Lemma get_inherited (DB : gmap string FileRecord) (k : string) :
  DB !! k = None → k ∈ Object_prototype → get DB k = Inherited.
Proof.
  unfold get. intros -> Hk. now rewrite bool_decide_eq_true_2.
Qed.

Lemma length_hex_of_byte (b : byte) : String.length (hex_of_byte b) = 2%nat.
Proof. reflexivity. Qed.

Lemma length_app_string (s t : string) :
  String.length (s +:+ t) = (String.length s + String.length t)%nat.
Proof. induction s as [|c s IH]; simpl; [reflexivity | now rewrite IH]. Qed.

Lemma length_toString_hex (buf : list byte) :
  String.length (toString_hex buf) = (2 * length buf)%nat.
Proof.
  induction buf as [|b buf IH]; [reflexivity|].
  cbn [toString_hex length].
  rewrite length_app_string, IH, length_hex_of_byte. lia.
Qed.

Lemma length_next_id (w : World) : String.length (next_id w) = 12%nat.
Proof.
  unfold next_id. rewrite length_toString_hex, length_map, length_seq. reflexivity.
Qed.

(** No name inherited from [Object.prototype] has twelve characters, so
    [genId] never returns one. *)
Lemma twelve_not_inherited (k : string) :
  String.length k = 12%nat → k ∉ Object_prototype.
Proof.
  intros Hlen Hin. unfold Object_prototype in Hin.
  repeat (apply elem_of_cons in Hin as [-> | Hin]; [discriminate Hlen|]).
  now apply elem_of_nil in Hin.
Qed.

Lemma genId_eq (w : World) :
  genId w = (Returned (next_id w), set_drawn (drawn w + 6) w).
Proof. reflexivity. Qed.

(** ** The metadata route *)

Lemma meta_eq (req : Request) (w : World) :
  meta req w =
    (Returned
       (let f := get (stored w) (params_id req) in
        if absent f then res_json 404 [("error", VStr "Not found or expired")]
        else res_json 200 [("id", f_id f);
                           ("originalName", f_originalName f);
                           ("expiresAt", opt_num (f_expiresAt f));
                           ("passwordProtected", VBool (truthy (f_passwordHash f)))]),
     after_load w).
Proof.
  unfold meta, bind. rewrite loadDB_eq. cbv zeta.
  destruct (absent (get (stored w) (params_id req))); reflexivity.
Qed.

Lemma meta_present (w : World) (req : Request) (f : FileRecord) :
  stored w !! params_id req = Some f →
  respond (meta req) w = (metadata f, w).
Proof.
  intros Hf. unfold respond. rewrite meta_eq.
  rewrite (get_own _ _ _ Hf), (after_load_present _ _ _ Hf). reflexivity.
Qed.

Lemma meta_unknown (w : World) (req : Request) :
  stored w !! params_id req = None →
  params_id req ∉ Object_prototype →
  (respond (meta req) w).1 = res_json 404 [("error", VStr "Not found or expired")].
Proof.
  intros Hf Hp. unfold respond. rewrite meta_eq.
  now rewrite (get_undefined _ _ Hf Hp).
Qed.

Lemma meta_inherited (w : World) (req : Request) :
  stored w !! params_id req = None →
  params_id req ∈ Object_prototype →
  (respond (meta req) w).1 = mkResponse 200 (Json [("passwordProtected", VBool false)]).
Proof.
  intros Hf Hp. unfold respond. rewrite meta_eq.
  now rewrite (get_inherited _ _ Hf Hp).
Qed.

(** X1. Whatever the id and the store, the answer of [/meta/:id] carries
    neither the password digest nor the storage path: its members are
    among [id], [originalName], [expiresAt], [passwordProtected] and
    [error]. *)
Theorem meta_display_safe (w : World) (req : Request) :
  (keys (respond (meta req) w).1 ⊆
    ["id"; "originalName"; "expiresAt"; "passwordProtected"; "error"]) ∧
  ("passwordHash" ∉ keys (respond (meta req) w).1) ∧
  ("path" ∉ keys (respond (meta req) w).1).
Proof.
  unfold respond. rewrite meta_eq. cbn [fst].
  destruct (get (stored w) (params_id req)) as [| |f]; cbn;
    (split; [|split]); by_computation.
Qed.

(** X2. For an id that is no name inherited from [Object.prototype] (an
    id issued by [genId] never is), [/meta/:id] answers 200 with exactly
    the members [id], [originalName], [expiresAt] and [passwordProtected]
    of the record when the id is in the store, and the same 404 whenever
    it is not, whether it never existed or was removed. *)
Theorem meta_found_or_404 (w : World) (req : Request) :
  params_id req ∉ Object_prototype →
  (∀ f : FileRecord, stored w !! params_id req = Some f →
     respond (meta req) w = (metadata f, w) ∧
     status (metadata f) = 200 ∧
     keys (metadata f) = ["id"; "originalName"; "expiresAt"; "passwordProtected"]) ∧
  (stored w !! params_id req = None →
     (respond (meta req) w).1 = res_json 404 [("error", VStr "Not found or expired")]).
Proof.
  intros Hp. split.
  - intros f Hf. split; [now apply meta_present|]. split; reflexivity.
  - intros Hf. now apply meta_unknown.
Qed.

(** C10. [/meta/:id] never reads the clock: for a record that is still in
    the store although its [expiresAt] has passed, it answers 200 with the
    record's metadata, and it leaves the world, the store with it, as it
    found it. *)
Theorem meta_ignores_expiry (w : World) (req : Request) (f : FileRecord) :
  stored w !! params_id req = Some f →
  expired (clock w (ticks w)) f →
  respond (meta req) w = (metadata f, w) ∧
  status (metadata f) = 200 ∧
  stored (respond (meta req) w).2 = stored w.
Proof.
  intros Hf _. rewrite (meta_present w req f Hf).
  split; [reflexivity|]. split; reflexivity.
Qed.

(** ** The health route *)

(** C8, as the code has it. [/health] reports the number of records in the
    store, expired or not: it reads no clock and tests no [expiresAt]. The
    number of live records, at whatever time, is at most the number it
    reports. *)
Theorem health_counts_records (w : World) :
  respond health w =
    (res_json 200 [("ok", VBool true); ("stored", VNum (Z.of_nat (size (stored w))))],
     after_load w) ∧
  stored (after_load w) = stored w ∧
  (∀ now : Z, (size (live now (stored w)) ≤ size (stored w))%nat).
Proof.
  split; [|split].
  - unfold respond, health, bind. rewrite loadDB_eq. reflexivity.
  - apply stored_after_load.
  - intros now. apply map_subseteq_size, map_filter_subseteq.
Qed.

(** ** The upload route *)

Lemma upload_no_file (w : World) (req : Request) :
  req_file req = None →
  respond (upload req) w = (res_json 400 [("error", VStr "No file uploaded")], w).
Proof.
  intros Hfile. unfold respond, upload, try_catch. rewrite Hfile. reflexivity.
Qed.

Lemma upload_no_body (w : World) (req : Request) (file : UploadedFile) :
  req_file req = Some file → req_body req = None →
  stored (respond (upload req) w).2 = stored w.
Proof.
  intros Hfile Hbody. unfold respond, upload, try_catch, bind.
  rewrite Hfile, loadDB_eq, genId_eq. unfold body_password. rewrite Hbody.
  cbn. apply stored_after_load.
Qed.

Lemma upload_stored (w : World) (req : Request) (file : UploadedFile) (b : Body) :
  req_file req = Some file → req_body req = Some b →
  stored (respond (upload req) w).2 =
    <[ next_id w := new_record w file (password b) ]> (stored w).
Proof.
  intros Hfile Hbody. unfold respond, upload, try_catch, bind.
  rewrite Hfile, loadDB_eq, genId_eq. unfold body_password. rewrite Hbody.
  unfold await_QRCode_toDataURL, new_record.
  rewrite next_id_after_load.
  destruct (QRCode_toDataURL _); cbn;
    now rewrite clock_after_load, ticks_after_load.
Qed.

(** C3, as the code has it. A record is created by [upload] when it is in
    the store afterwards and was not before. Its [expiresAt] is the first
    reading of the clock plus the fixed 600000 ms, and its [uploadedAt] is
    the second reading (line 77 calls [Date.now()] again): [expiresAt] is
    [uploadedAt] plus the time to live exactly when the two readings
    agree. *)
Theorem upload_expiry (w : World) (req : Request) (k : string) (f : FileRecord) :
  stored (respond (upload req) w).2 !! k = Some f →
  stored w !! k ≠ Some f →
  TTL = 600000 ∧
  expiresAt f = clock w (ticks w) + TTL ∧
  uploadedAt f = clock w (S (ticks w)) ∧
  (expiresAt f = uploadedAt f + TTL ↔ clock w (S (ticks w)) = clock w (ticks w)).
Proof.
  intros Hnew Hold.
  destruct (req_file req) as [file|] eqn:Hfile.
  - destruct (req_body req) as [b|] eqn:Hbody.
    + rewrite (upload_stored w req file b Hfile Hbody) in Hnew.
      destruct (decide (next_id w = k)) as [<-|Hk].
      * rewrite lookup_insert_eq in Hnew. injection Hnew as <-.
        unfold TTL. cbn [expiresAt uploadedAt new_record].
        repeat split; lia.
      * rewrite lookup_insert_ne in Hnew by exact Hk. contradiction.
    + rewrite (upload_no_body w req file Hfile Hbody) in Hnew. contradiction.
  - rewrite (upload_no_file w req Hfile) in Hnew. contradiction.
Qed.

(** ** Password digests *)

Lemma hashPwd_nonempty (s : string) :
  s ≠ "" → hashPwd (Some s) = Some (sha256_hex s).
Proof.
  intros Hs. unfold hashPwd. cbn [truthy].
  destruct (String.eqb_spec s ""); [contradiction | reflexivity].
Qed.

Lemma or_null_empty (p : option string) :
  p = None ∨ p = Some "" → or_null p = None.
Proof. intros [->| ->]; reflexivity. Qed.

(** C7. [hashPwd] is a function of its argument alone; [null] and the
    empty string map to [null], the digest of a non-empty secret never
    does; and an upload whose password field is empty or missing stores a
    record without a digest, which [/meta/:id] reports as not password
    protected. *)
Theorem hashPwd_sentinel :
  (∀ p q : option string, p = q → hashPwd p = hashPwd q) ∧
  hashPwd None = None ∧
  hashPwd (Some "") = None ∧
  (∀ s : string, s ≠ "" →
     hashPwd (Some s) = Some (sha256_hex s) ∧ hashPwd (Some s) ≠ hashPwd None) ∧
  (∀ (w : World) (req req' : Request) (file : UploadedFile) (b : Body),
     req_file req = Some file → req_body req = Some b →
     password b = None ∨ password b = Some "" →
     params_id req' = next_id w →
     let w' := (respond (upload req) w).2 in
     ∃ f, stored w' !! next_id w = Some f ∧
          passwordHash f = None ∧
          respond (meta req') w' = (metadata f, w') ∧
          ("passwordProtected", VBool false) ∈
            match payload (metadata f) with Json members => members | _ => [] end).
Proof.
  split; [now intros p q ->|].
  split; [reflexivity|]. split; [reflexivity|]. split.
  - intros s Hs. rewrite (hashPwd_nonempty s Hs). split; [reflexivity | discriminate].
  - intros w req req' file b Hfile Hbody Hp Hid w'.
    assert (Hst : stored w' !! next_id w = Some (new_record w file (password b))).
    { unfold w'. rewrite (upload_stored w req file b Hfile Hbody).
      apply lookup_insert_eq. }
    assert (Hnone : passwordHash (new_record w file (password b)) = None).
    { cbn [passwordHash new_record]. rewrite (or_null_empty _ Hp). reflexivity. }
    exists (new_record w file (password b)).
    split; [exact Hst|]. split; [exact Hnone|]. split.
    + apply meta_present. now rewrite Hid.
    + unfold metadata. rewrite Hnone. cbn.
      do 3 apply list_elem_of_further. apply list_elem_of_here.
Qed.

(** ** The download route *)

Lemma try_unlink_eq (p : string) (w : World) :
  try_unlink (VStr p) w = (Returned tt, after_unlink p w).
Proof.
  unfold try_unlink, try_catch, bind, fs_existsSync, fs_unlinkSync, after_unlink.
  destruct (uploads w !! p) as [content|] eqn:E.
  - rewrite bool_decide_eq_true_2 by eauto. rewrite E.
    destruct (bool_decide (p ∈ busy w)); reflexivity.
  - rewrite bool_decide_eq_false_2; [reflexivity|].
    intros [x Hx]. discriminate Hx.
Qed.

Lemma stored_after_unlink (p : string) (w : World) :
  stored (after_unlink p w) = stored w.
Proof.
  unfold after_unlink. destruct (uploads w !! p); [|reflexivity].
  destruct (bool_decide (p ∈ busy w)); reflexivity.
Qed.

Lemma db_writes_after_unlink (p : string) (w : World) :
  db_writes (after_unlink p w) = db_writes w.
Proof.
  unfold after_unlink. destruct (uploads w !! p); [|reflexivity].
  destruct (bool_decide (p ∈ busy w)); reflexivity.
Qed.

Lemma download_unknown (w : World) (req : Request) :
  stored w !! params_id req = None →
  params_id req ∉ Object_prototype →
  respond (download req) w = (res_send 404 "Invalid or expired link", after_load w).
Proof.
  intros Hf Hp. unfold respond, download, bind. rewrite loadDB_eq. cbv zeta.
  now rewrite (get_undefined _ _ Hf Hp).
Qed.

Lemma download_expired_eq (w : World) (req : Request) (f : FileRecord) :
  stored w !! params_id req = Some f →
  expired (clock w (ticks w)) f →
  respond (download req) w =
    (res_send 410 "Link expired",
     write_db (Encoded (delete (params_id req) (stored w)))
       (after_unlink (path f) (set_ticks (S (ticks w)) w))).
Proof.
  intros Hf Hexp. unfold respond, download, bind. rewrite loadDB_eq. cbv zeta.
  rewrite (get_own _ _ _ Hf), (after_load_present _ _ _ Hf).
  cbn [absent Date_now f_expiresAt js_gt f_path].
  apply Z.ltb_lt in Hexp. rewrite Hexp.
  rewrite try_unlink_eq. reflexivity.
Qed.

Lemma download_unauthorized_eq (w : World) (req : Request) (f : FileRecord) :
  stored w !! params_id req = Some f →
  ¬ expired (clock w (ticks w)) f →
  truthy (nullable (passwordHash f)) = true →
  hashPwd (Some (provided_password req)) ≠ passwordHash f →
  respond (download req) w =
    (res_send 401 "Invalid password", set_ticks (S (ticks w)) w).
Proof.
  intros Hf Hexp Hhash Hbad. unfold respond, download, bind.
  rewrite loadDB_eq. cbv zeta.
  rewrite (get_own _ _ _ Hf), (after_load_present _ _ _ Hf).
  cbn [absent Date_now f_expiresAt js_gt f_path f_passwordHash].
  apply Z.ltb_nlt in Hexp. rewrite Hexp, Hhash.
  rewrite bool_decide_eq_true_2; [reflexivity|].
  intros E. apply Hbad.
  destruct (hashPwd (Some (provided_password req))), (passwordHash f);
    cbn in E; congruence.
Qed.

Lemma download_streams_eq (w : World) (req : Request) (f : FileRecord)
    (content : list byte) :
  stored w !! params_id req = Some f →
  ¬ expired (clock w (ticks w)) f →
  admitted req f →
  uploads w !! path f = Some content →
  respond (download req) w =
    (mkResponse 200 (Attachment (sendName f) content),
     print ("Downloaded id=" +:+ params_id req +:+ " file=" +:+ sendName f)
       (set_ticks (S (ticks w)) w)).
Proof.
  intros Hf Hexp Hadm Hfile. unfold respond, download, bind.
  rewrite loadDB_eq. cbv zeta.
  rewrite (get_own _ _ _ Hf), (after_load_present _ _ _ Hf).
  cbn [absent Date_now f_expiresAt js_gt f_path f_passwordHash].
  apply Z.ltb_nlt in Hexp. rewrite Hexp.
  assert (Hstream :
    stream (params_id req) (Own f) (set_ticks (S (ticks w)) w) =
    (Returned (mkResponse 200 (Attachment (sendName f) content)),
     print ("Downloaded id=" +:+ params_id req +:+ " file=" +:+ sendName f)
       (set_ticks (S (ticks w)) w))).
  { unfold stream, bind, js_or_else, sendName, path_basename, res_download.
    cbn [f_originalName f_path].
    destruct (truthy (VStr (originalName f))); cbn; now rewrite Hfile. }
  destruct (truthy (nullable (passwordHash f))) eqn:Hhash.
  - destruct Hadm as [Hno|Hok]; [congruence|].
    rewrite bool_decide_eq_false_2; [now rewrite Hstream|].
    intros Hne. apply Hne. now rewrite Hok.
  - now rewrite Hstream.
Qed.

(** C2. On a record that is not expired and has a password digest, a
    request whose password is missing or empty, or whose password does not
    hash to the digest, is answered 401; the store file and the uploaded
    files are left as they were, so the record is still there for a
    retry. *)
Theorem download_unauthorized (w : World) (req : Request) (f : FileRecord)
    (digest : string) :
  stored w !! params_id req = Some f →
  ¬ expired (clock w (ticks w)) f →
  passwordHash f = Some digest → digest ≠ "" →
  provided_password req = "" ∨ sha256_hex (provided_password req) ≠ digest →
  (respond (download req) w).1 = res_send 401 "Invalid password" ∧
  db_file (respond (download req) w).2 = db_file w ∧
  db_writes (respond (download req) w).2 = db_writes w ∧
  uploads (respond (download req) w).2 = uploads w ∧
  stored (respond (download req) w).2 !! params_id req = Some f.
Proof.
  intros Hf Hlive Hdigest Hne Hbad.
  assert (Htruthy : truthy (nullable (passwordHash f)) = true).
  { rewrite Hdigest. cbn. destruct (String.eqb_spec digest ""); [contradiction|reflexivity]. }
  assert (Hhash : hashPwd (Some (provided_password req)) ≠ passwordHash f).
  { rewrite Hdigest. destruct Hbad as [E|E].
    - rewrite E. discriminate.
    - unfold hashPwd. destruct (truthy (VStr (provided_password req)));
        [congruence | discriminate]. }
  rewrite (download_unauthorized_eq w req f Hf Hlive Htruthy Hhash).
  repeat split. exact Hf.
Qed.

Lemma sendName_original (f : FileRecord) :
  originalName f ≠ "" → sendName f = originalName f.
Proof.
  intros Hne. unfold sendName. cbn [truthy].
  destruct (String.eqb_spec (originalName f) ""); [contradiction|reflexivity].
Qed.

Lemma sendName_fallback (f : FileRecord) :
  originalName f = "" → sendName f = basename (path f).
Proof. intros E. unfold sendName. rewrite E. reflexivity. Qed.

Lemma run_cons (e : event) (events : list event) (w : World) :
  run (e :: events) w = run events (step e w).
Proof. reflexivity. Qed.

(** Downloads that succeed change nothing but the clock and the console,
    however often they are repeated. *)
Lemma repeated_downloads (req : Request) (f : FileRecord) (content : list byte)
    (n : nat) :
  ∀ w : World,
    stored w !! params_id req = Some f →
    admitted req f →
    uploads w !! path f = Some content →
    (∀ k : nat, (k < n)%nat → ¬ expired (clock w (ticks w + k)%nat) f) →
    let w' := run (replicate n (POST_download req)) w in
    db_file w' = db_file w ∧ db_writes w' = db_writes w ∧
    uploads w' = uploads w ∧ clock w' = clock w ∧
    ticks w' = (ticks w + n)%nat.
Proof.
  induction n as [|n IH]; intros w Hf Hadm Hfile Hlive.
  - cbn. repeat split. lia.
  - cbn [replicate]. rewrite run_cons. cbn [step].
    assert (H0 : ¬ expired (clock w (ticks w)) f).
    { specialize (Hlive 0%nat). rewrite Nat.add_0_r in Hlive. apply Hlive. lia. }
    rewrite (download_streams_eq w req f content Hf H0 Hadm Hfile). cbn [snd].
    set (w1 := print _ _).
    destruct (IH w1) as (E1 & E2 & E3 & E4 & E5).
    + exact Hf.
    + exact Hadm.
    + exact Hfile.
    + intros k Hk. change (¬ expired (clock w (S (ticks w) + k)%nat) f).
      replace (S (ticks w) + k)%nat with (ticks w + S k)%nat by lia.
      apply Hlive. lia.
    + cbv zeta. rewrite E1, E2, E3, E4, E5. cbn. repeat split. lia.
Qed.

(** C4, as the code has it. A download that succeeds (the record is not
    expired, the password check lets the request through and the file is
    on disk) streams the bytes of the file under the record's original
    name when that name is not empty, and under the base name of the
    storage path otherwise (line 133). It writes neither the store nor
    the upload directory, so the record stays, and every repetition of the
    request made while the record is unexpired gets the same answer. *)
Theorem download_streams (w : World) (req : Request) (f : FileRecord)
    (content : list byte) :
  stored w !! params_id req = Some f →
  ¬ expired (clock w (ticks w)) f →
  admitted req f →
  uploads w !! path f = Some content →
  (respond (download req) w).1 = mkResponse 200 (Attachment (sendName f) content) ∧
  (originalName f ≠ "" → sendName f = originalName f) ∧
  (originalName f = "" → sendName f = basename (path f)) ∧
  db_file (respond (download req) w).2 = db_file w ∧
  db_writes (respond (download req) w).2 = db_writes w ∧
  uploads (respond (download req) w).2 = uploads w ∧
  (∀ n : nat,
     (∀ k : nat, (k ≤ n)%nat → ¬ expired (clock w (ticks w + k)%nat) f) →
     (respond (download req) (run (replicate n (POST_download req)) w)).1 =
       mkResponse 200 (Attachment (sendName f) content)).
Proof.
  intros Hf Hlive Hadm Hfile.
  rewrite (download_streams_eq w req f content Hf Hlive Hadm Hfile).
  split; [reflexivity|].
  split; [apply sendName_original|].
  split; [apply sendName_fallback|].
  do 3 (split; [reflexivity|]).
  intros n Hn.
  destruct (repeated_downloads req f content n w Hf Hadm Hfile)
    as (E1 & E2 & E3 & E4 & E5).
  { intros k Hk. apply Hn. lia. }
  set (w' := run _ w) in *.
  assert (Hf' : stored w' !! params_id req = Some f).
  { unfold stored. rewrite E1. exact Hf. }
  rewrite (download_streams_eq w' req f content Hf'); [reflexivity| |exact Hadm|].
  - rewrite E4, E5. apply Hn. lia.
  - rewrite E3. exact Hfile.
Qed.

(** ** What the handlers leave alone *)

Ltac same_frame := unfold frame; cbn; repeat split; lia.

Lemma frame_refl (w : World) : frame w w.
Proof. same_frame. Qed.

Lemma frame_trans (w1 w2 w3 : World) : frame w1 w2 → frame w2 w3 → frame w1 w3.
Proof.
  intros (A1 & A2 & A3 & A4) (B1 & B2 & B3 & B4). unfold frame.
  rewrite B1, B2, B3. repeat split; try assumption. lia.
Qed.

Lemma framed_ret {A} (a : A) : framed (ret a).
Proof. intros w. apply frame_refl. Qed.

Lemma framed_throw {A} (e : string) : framed (@throw A e).
Proof. intros w. apply frame_refl. Qed.

Lemma framed_bind {A B} (c : M A) (k : A → M B) :
  framed c → (∀ a, framed (k a)) → framed (bind c k).
Proof.
  intros Hc Hk w. unfold bind. specialize (Hc w).
  destruct (c w) as [[a|e] w1]; cbn in *.
  - eapply frame_trans; [exact Hc | apply Hk].
  - exact Hc.
Qed.

Lemma framed_try_catch {A} (c : M A) (handler : string → M A) :
  framed c → (∀ e, framed (handler e)) → framed (try_catch c handler).
Proof.
  intros Hc Hh w. unfold try_catch. specialize (Hc w).
  destruct (c w) as [[a|e] w1]; cbn in *.
  - exact Hc.
  - eapply frame_trans; [exact Hc | apply Hh].
Qed.

Lemma framed_Date_now : framed Date_now.
Proof. intros w. same_frame. Qed.

Lemma framed_crypto_randomBytes (n : nat) : framed (crypto_randomBytes n).
Proof. intros w. same_frame. Qed.

Lemma framed_console_log (line : string) : framed (console_log line).
Proof. intros w. same_frame. Qed.

Lemma framed_console_error (line : string) : framed (console_error line).
Proof. intros w. same_frame. Qed.

Lemma framed_readFileSync : framed fs_readFileSync_DB_FILE.
Proof.
  intros w. unfold fs_readFileSync_DB_FILE.
  destruct (db_file w); apply frame_refl.
Qed.

Lemma framed_writeFileSync (t : text) : framed (fs_writeFileSync_DB_FILE t).
Proof. intros w. same_frame. Qed.

Lemma framed_existsSync (p : value) : framed (fs_existsSync p).
Proof. intros w. destruct p; apply frame_refl. Qed.

Lemma framed_unlinkSync (p : value) : framed (fs_unlinkSync p).
Proof.
  intros w. destruct p as [| | | |p]; try apply frame_refl.
  unfold fs_unlinkSync. destruct (uploads w !! p); [|apply frame_refl].
  destruct (bool_decide (p ∈ busy w)); same_frame.
Qed.

Lemma framed_JSON_parse (t : text) : framed (JSON_parse t).
Proof. destruct t; [apply framed_throw | apply framed_throw | apply framed_ret]. Qed.

Lemma framed_res_download (ident : string) (p name : value) :
  framed (res_download ident p name).
Proof.
  intros w. unfold res_download.
  destruct p as [| | | |p]; try apply frame_refl.
  destruct name as [| | | |name]; try apply frame_refl.
  destruct (uploads w !! p); same_frame.
Qed.

Create HintDb framed.

#[local] Hint Resolve framed_ret framed_throw framed_Date_now
  framed_crypto_randomBytes framed_console_log framed_console_error
  framed_readFileSync framed_writeFileSync framed_existsSync
  framed_unlinkSync framed_JSON_parse framed_res_download : framed.

(** Follows the structure of a handler: binds, [try]/[catch] and branches. *)
Ltac framed :=
  repeat first
    [ progress intros
    | apply framed_bind
    | apply framed_try_catch
    | solve [auto with framed]
    | match goal with
      | |- framed (if ?b then _ else _) => destruct b
      | |- framed (match ?x with _ => _ end) => destruct x
      end ].

Lemma framed_loadDB : framed loadDB.
Proof. unfold loadDB. framed. Qed.

Lemma framed_saveDB (DB : gmap string FileRecord) : framed (saveDB DB).
Proof. unfold saveDB. framed. Qed.

Lemma framed_genId : framed genId.
Proof. unfold genId. framed. Qed.

Lemma framed_try_unlink (p : value) : framed (try_unlink p).
Proof. unfold try_unlink. framed. Qed.

#[local] Hint Resolve framed_loadDB framed_saveDB framed_genId
  framed_try_unlink : framed.

Lemma framed_upload (req : Request) : framed (upload req).
Proof.
  unfold upload, body_password, await_QRCode_toDataURL. framed.
Qed.

Lemma framed_meta (req : Request) : framed (meta req).
Proof. unfold meta. framed. Qed.

Lemma framed_download (req : Request) : framed (download req).
Proof. unfold download, stream, js_or_else, path_basename. framed. Qed.

Lemma framed_health : framed health.
Proof. unfold health. framed. Qed.

Lemma framed_cleanup_loop (entries : list (string * FileRecord)) :
  ∀ (DB : gmap string FileRecord) (changed : bool),
    framed (cleanup_loop entries DB changed).
Proof.
  induction entries as [|[k f] rest IH]; intros DB changed; cbn [cleanup_loop].
  - framed.
  - apply framed_bind; [auto with framed|]. intros now.
    destruct (js_gt now (Some (expiresAt f))); [|apply IH].
    framed.
Qed.

Lemma framed_cleanup : framed cleanup.
Proof.
  unfold cleanup. apply framed_bind; [auto with framed|]. intros DB.
  apply framed_bind; [apply framed_cleanup_loop|]. intros [DB' changed].
  framed.
Qed.

Lemma frame_respond (handler : M response) (w : World) :
  framed handler → frame w (respond handler w).2.
Proof.
  intros H. unfold respond. specialize (H w).
  destruct (handler w) as [[res|e] w']; exact H.
Qed.

Lemma frame_step (e : event) (w : World) : frame w (step e w).
Proof.
  destruct e as [req content|req|req| |]; cbn [step].
  - eapply frame_trans; [|apply frame_respond, framed_upload].
    unfold multer_single. destruct (req_file req); same_frame.
  - apply frame_respond, framed_meta.
  - apply frame_respond, framed_download.
  - apply frame_respond, framed_health.
  - apply framed_cleanup.
Qed.

(** ** The clean-up job *)

Lemma uploads_after_unlink (p q : string) (c : list byte) (w : World) :
  uploads (after_unlink p w) !! q = Some c → uploads w !! q = Some c.
Proof.
  unfold after_unlink. destruct (uploads w !! p); [|auto].
  destruct (bool_decide (p ∈ busy w)); [auto|].
  cbn. intros H. apply lookup_delete_Some in H. exact (proj2 H).
Qed.

Lemma unlinked_after_unlink (p : string) (w : World) :
  p ∉ busy w → uploads (after_unlink p w) !! p = None.
Proof.
  intros Hp. unfold after_unlink. destruct (uploads w !! p) eqn:E; [|exact E].
  rewrite bool_decide_eq_false_2 by exact Hp. cbn. apply lookup_delete_eq.
Qed.

Lemma fields_after_unlink (p : string) (w : World) :
  ticks (after_unlink p w) = ticks w ∧ clock (after_unlink p w) = clock w ∧
  busy (after_unlink p w) = busy w ∧ db_file (after_unlink p w) = db_file w ∧
  db_writes (after_unlink p w) = db_writes w.
Proof.
  unfold after_unlink. destruct (uploads w !! p); [|repeat split].
  destruct (bool_decide (p ∈ busy w)); repeat split.
Qed.

Lemma cleanup_loop_step (k : string) (f : FileRecord)
    (rest : list (string * FileRecord)) (DB : gmap string FileRecord)
    (changed : bool) (w : World) :
  cleanup_loop ((k, f) :: rest) DB changed w =
    if bool_decide (expired (clock w (ticks w)) f)
    then cleanup_loop rest (delete k DB) true
           (print ("Auto-deleted expired file id=" +:+ k)
              (after_unlink (path f) (set_ticks (S (ticks w)) w)))
    else cleanup_loop rest DB changed (set_ticks (S (ticks w)) w).
Proof.
  cbn [cleanup_loop]. unfold bind at 1. cbn [Date_now js_gt].
  unfold expired. destruct (Z.ltb_spec (expiresAt f) (clock w (ticks w))) as [H|H].
  - rewrite bool_decide_eq_true_2 by exact H.
    unfold bind. rewrite try_unlink_eq. reflexivity.
  - rewrite bool_decide_eq_false_2 by lia. reflexivity.
Qed.

(** The loop of the clean-up job, entry by entry: entry [j] is compared
    with reading [ticks w + j] of the clock. *)
Lemma cleanup_loop_spec (entries : list (string * FileRecord)) :
  ∀ (DB : gmap string FileRecord) (changed : bool) (w : World),
  ∃ (DB' : gmap string FileRecord) (changed' : bool) (w' : World),
    cleanup_loop entries DB changed w = (Returned (DB', changed'), w') ∧
    ticks w' = (ticks w + length entries)%nat ∧
    db_file w' = db_file w ∧
    db_writes w' = db_writes w ∧
    (∀ k g, DB' !! k = Some g → DB !! k = Some g) ∧
    (∀ p c, uploads w' !! p = Some c → uploads w !! p = Some c) ∧
    (∀ j k f, entries !! j = Some (k, f) →
       expired (clock w (ticks w + j)%nat) f →
       DB' !! k = None ∧ (path f ∉ busy w → uploads w' !! path f = None)) ∧
    (∀ k g, DB !! k = Some g → DB' !! k = None →
       ∃ j f, entries !! j = Some (k, f) ∧ expired (clock w (ticks w + j)%nat) f) ∧
    (changed' = true ↔
       changed = true ∨
       ∃ j k f, entries !! j = Some (k, f) ∧ expired (clock w (ticks w + j)%nat) f).
Proof.
  induction entries as [|[k0 f0] rest IH]; intros DB changed w.
  - exists DB, changed, w. cbn. split; [reflexivity|].
    split; [lia|]. do 4 (split; [auto|]). split; [|split].
    + intros j k f H. rewrite lookup_nil in H. discriminate.
    + intros k g H1 H2. congruence.
    + split; [auto|]. intros [H|(j & k & f & H & _)]; [exact H|].
      rewrite lookup_nil in H. discriminate.
  - rewrite cleanup_loop_step.
    destruct (bool_decide (expired (clock w (ticks w)) f0)) eqn:Hexp.
    + apply bool_decide_eq_true_1 in Hexp.
      set (w2 := print _ _).
      destruct (fields_after_unlink (path f0) (set_ticks (S (ticks w)) w))
        as (F1 & F2 & F3 & F4 & F5).
      assert (Hticks : ticks w2 = S (ticks w)) by exact F1.
      assert (Hclock : clock w2 = clock w) by exact F2.
      assert (Hbusy : busy w2 = busy w) by exact F3.
      assert (Hfile : db_file w2 = db_file w) by exact F4.
      assert (Hwrites : db_writes w2 = db_writes w) by exact F5.
      assert (Hshrink : ∀ p c, uploads w2 !! p = Some c → uploads w !! p = Some c).
      { intros p c H. apply (uploads_after_unlink (path f0) p c _) in H. exact H. }
      assert (Hunlinked : path f0 ∉ busy w → uploads w2 !! path f0 = None).
      { intros Hb. apply (unlinked_after_unlink (path f0) (set_ticks (S (ticks w)) w)).
        exact Hb. }
      clearbody w2.
      destruct (IH (delete k0 DB) true w2)
        as (DB' & changed' & w' & Heq & Ht & Hdb & Hwr & Hsub & Hup & Hdel & Honly & Hch).
      rewrite Hticks, Hclock in *. rewrite Hbusy in Hdel.
      exists DB', changed', w'. split; [exact Heq|].
      split; [rewrite Ht; cbn; lia|].
      split; [congruence|]. split; [congruence|].
      split; [|split; [|split; [|split]]].
      * intros k g H. apply Hsub in H. apply lookup_delete_Some in H. exact (proj2 H).
      * intros p c H. apply Hshrink, Hup, H.
      * intros [|j] k f Hj Hx.
        -- cbn in Hj. injection Hj as -> ->. split.
           ++ destruct (DB' !! k) as [g|] eqn:E; [|reflexivity].
              apply Hsub in E. rewrite lookup_delete_eq in E. discriminate.
           ++ intros Hb. destruct (uploads w' !! path f) as [c|] eqn:E; [|reflexivity].
              apply Hup in E. rewrite Hunlinked in E by exact Hb. discriminate.
        -- cbn in Hj. apply (Hdel j k f Hj).
           replace (S (ticks w) + j)%nat with (ticks w + S j)%nat by lia. exact Hx.
      * intros k g Hk Hgone. destruct (decide (k0 = k)) as [<-|Hne].
        -- exists 0%nat, f0. split; [reflexivity|].
           rewrite Nat.add_0_r. exact Hexp.
        -- destruct (Honly k g) as (j & f & Hj & Hx).
           { rewrite lookup_delete_ne by exact Hne. exact Hk. }
           { exact Hgone. }
           exists (S j), f. split; [exact Hj|].
           replace (ticks w + S j)%nat with (S (ticks w) + j)%nat by lia. exact Hx.
      * split; [|intros _; apply Hch; now left].
        intros _. right. exists 0%nat, k0, f0. split; [reflexivity|].
        rewrite Nat.add_0_r. exact Hexp.
    + apply bool_decide_eq_false_1 in Hexp.
      set (w1 := set_ticks _ w).
      destruct (IH DB changed w1)
        as (DB' & changed' & w' & Heq & Ht & Hdb & Hwr & Hsub & Hup & Hdel & Honly & Hch).
      exists DB', changed', w'. split; [exact Heq|].
      split; [rewrite Ht; cbn; lia|].
      split; [rewrite Hdb; reflexivity|].
      split; [rewrite Hwr; reflexivity|].
      split; [exact Hsub|]. split; [exact Hup|]. split; [|split].
      * intros [|j] k f Hj Hx.
        -- cbn in Hj. injection Hj as -> ->.
           rewrite Nat.add_0_r in Hx. contradiction.
        -- cbn in Hj. apply (Hdel j k f Hj).
           change (clock w1) with (clock w). change (ticks w1) with (S (ticks w)).
           replace (S (ticks w) + j)%nat with (ticks w + S j)%nat by lia. exact Hx.
      * intros k g Hk Hgone. destruct (Honly k g Hk Hgone) as (j & f & Hj & Hx).
        exists (S j), f. split; [exact Hj|].
        replace (ticks w + S j)%nat with (S (ticks w) + j)%nat by lia. exact Hx.
      * rewrite Hch. split.
        -- intros [H|(j & k & f & Hj & Hx)]; [now left|].
           right. exists (S j), k, f. split; [exact Hj|].
           replace (ticks w + S j)%nat with (S (ticks w) + j)%nat by lia. exact Hx.
        -- intros [H|(j & k & f & Hj & Hx)]; [now left|].
           destruct j as [|j].
           ++ cbn in Hj. injection Hj as -> ->.
              rewrite Nat.add_0_r in Hx. contradiction.
           ++ right. exists j, k, f. split; [exact Hj|].
              change (clock w1) with (clock w). change (ticks w1) with (S (ticks w)).
              replace (S (ticks w) + j)%nat with (ticks w + S j)%nat by lia. exact Hx.
Qed.

(** One run of the clean-up job, in terms of the store before and after.
    [DB'] is the store afterwards; entry [j] of [Object.entries] met
    reading [ticks w + j] of the clock. *)
Lemma cleanup_spec (w : World) :
  ∃ (changed : bool),
    let w' := (cleanup w).2 in
    db_writes w' = (if changed then S (db_writes w) else db_writes w) ∧
    (∀ k g, stored w' !! k = Some g → stored w !! k = Some g) ∧
    (∀ p c, uploads w' !! p = Some c → uploads w !! p = Some c) ∧
    (∀ k f, stored w !! k = Some f →
       ∃ j : nat,
         (expired (clock w (ticks w + j)%nat) f →
            stored w' !! k = None ∧ (path f ∉ busy w → uploads w' !! path f = None)) ∧
         (stored w' !! k = None → expired (clock w (ticks w + j)%nat) f)) ∧
    (changed = true ↔ ∃ k, is_Some (stored w !! k) ∧ stored w' !! k = None).
Proof.
  unfold cleanup, bind. rewrite loadDB_eq.
  destruct (cleanup_loop_spec (map_to_list (stored w)) (stored w) false (after_load w))
    as (DB' & changed & w1 & Heq & Ht & Hdb & Hwr & Hsub & Hup & Hdel & Honly & Hch).
  rewrite Heq. cbn [fst snd].
  rewrite clock_after_load, ticks_after_load, busy_after_load in *.
  rewrite db_file_after_load in Hdb. rewrite db_writes_after_load in Hwr.
  assert (Hup' : ∀ p c, uploads w1 !! p = Some c → uploads w !! p = Some c).
  { intros p c H. apply Hup in H. now rewrite uploads_after_load in H. }
  assert (Hnone : changed = false → ∀ k, DB' !! k = stored w !! k).
  { intros Hc k. destruct (stored w !! k) as [g|] eqn:E.
    - destruct (DB' !! k) as [g'|] eqn:E'.
      + apply Hsub in E'. congruence.
      + destruct (Honly k g E E') as (j & f & Hj & Hx).
        assert (changed = true) by (apply Hch; right; eauto). congruence.
    - destruct (DB' !! k) as [g'|] eqn:E'; [|reflexivity].
      apply Hsub in E'. congruence. }
  set (w' := (if changed then saveDB DB' else ret tt) w1).
  assert (Hst : ∀ k, stored w'.2 !! k = DB' !! k).
  { intros k. unfold w'. destruct changed; cbn.
    - reflexivity.
    - unfold stored at 1. rewrite Hdb. fold (stored w). symmetry. now apply Hnone. }
  assert (Hupl : uploads w'.2 = uploads w1).
  { unfold w'. destruct changed; reflexivity. }
  exists changed. cbv zeta.
  split; [unfold w'; destruct changed; cbn; congruence|].
  split; [intros k g; rewrite Hst; apply Hsub|].
  split; [rewrite Hupl; exact Hup'|].
  split.
  - intros k f Hk.
    assert (Hin : (k, f) ∈ map_to_list (stored w)) by now apply elem_of_map_to_list.
    apply list_elem_of_lookup in Hin as [j Hj].
    exists j. rewrite Hst, Hupl. split.
    + intros Hx. apply (Hdel j k f Hj Hx).
    + intros Hgone. destruct (Honly k f Hk Hgone) as (j' & f' & Hj' & Hx').
      assert (j' = j).
      { eapply NoDup_lookup; [apply (NoDup_fst_map_to_list (stored w))| |].
        - rewrite list_lookup_fmap, Hj'. reflexivity.
        - rewrite list_lookup_fmap, Hj. reflexivity. }
      subst j'. rewrite Hj in Hj'. injection Hj' as <-. exact Hx'.
  - rewrite Hch. split.
    + intros [H|(j & k & f & Hj & Hx)]; [discriminate|].
      exists k. split.
      * exists f. apply elem_of_map_to_list, list_elem_of_lookup. eauto.
      * rewrite Hst. apply (Hdel j k f Hj Hx).
    + intros (k & [g Hg] & Hgone). right. rewrite Hst in Hgone.
      destruct (Honly k g Hg Hgone) as (j & f & Hj & Hx). eauto.
Qed.

(** C5, as the code has it. The job removes a record when the clock reads
    past its [expiresAt] ([Date.now() > f.expiresAt]), so a record whose
    [expiresAt] equals the reading stays. With a clock that does not fall
    below its reading [now] at the start of the sweep: every record left
    in the store was there before and has [expiresAt >= now]; every record
    with [expiresAt < now] is gone, and so is its file unless it cannot be
    removed; and the store file is written at most once, and exactly when
    a record was removed. *)
Theorem cleanup_sweeps (w : World) :
  (∀ n : nat, (ticks w ≤ n)%nat → clock w (ticks w) ≤ clock w n) →
  (∀ k f, stored (cleanup w).2 !! k = Some f →
     stored w !! k = Some f ∧ clock w (ticks w) ≤ expiresAt f) ∧
  (∀ k f, stored w !! k = Some f → expired (clock w (ticks w)) f →
     stored (cleanup w).2 !! k = None ∧
     (path f ∉ busy w → uploads (cleanup w).2 !! path f = None)) ∧
  (db_writes (cleanup w).2 ≤ S (db_writes w))%nat ∧
  (db_writes (cleanup w).2 = S (db_writes w) ↔
     ∃ k, is_Some (stored w !! k) ∧ stored (cleanup w).2 !! k = None).
Proof.
  intros Hclock.
  destruct (cleanup_spec w) as (changed & Hwr & Hsub & _ & Hentry & Hch).
  cbv zeta in *. split; [|split; [|split]].
  - intros k f Hk. pose proof (Hsub k f Hk) as Hold. split; [exact Hold|].
    destruct (Hentry k f Hold) as (j & Hgo & _).
    destruct (decide (expired (clock w (ticks w + j)%nat) f)) as [Hx|Hx].
    + apply Hgo in Hx as [Hnone _]. congruence.
    + unfold expired in Hx. specialize (Hclock (ticks w + j)%nat). lia.
  - intros k f Hk Hx. destruct (Hentry k f Hk) as (j & Hgo & _).
    apply Hgo. unfold expired in *. specialize (Hclock (ticks w + j)%nat). lia.
  - rewrite Hwr. destruct changed; lia.
  - rewrite <- Hch, Hwr. destruct changed; split; intros H; try reflexivity;
      try discriminate; lia.
Qed.

(** ** The life of an id *)

Lemma download_stored (w : World) (req : Request) :
  stored (respond (download req) w).2 = stored w ∨
  stored (respond (download req) w).2 = delete (params_id req) (stored w).
Proof.
  unfold respond, download, bind. rewrite loadDB_eq. cbv zeta.
  destruct (get (stored w) (params_id req)) as [| |f]; cbn [absent].
  - left. apply stored_after_load.
  - left. cbn. apply stored_after_load.
  - cbn [Date_now f_expiresAt js_gt f_path f_passwordHash].
    destruct (expiresAt f <? clock (after_load w) (ticks (after_load w))).
    + right. rewrite try_unlink_eq. reflexivity.
    + left.
      assert (Hstream : ∀ w1, stored w1 = stored w →
        stored (let (o, w2) := stream (params_id req) (Own f) w1 in
                match o with
                | Returned res => (res, w2)
                | Thrown _ => (res_send 500 "Internal Server Error", w2)
                end).2 = stored w).
      { intros w1 E. unfold stream, bind, js_or_else, res_download.
        cbn [f_originalName f_path].
        destruct (truthy (VStr (originalName f))); cbn;
          destruct (uploads w1 !! path f); exact E. }
      destruct (truthy (nullable (passwordHash f))).
      * destruct (bool_decide _).
        -- cbn. apply stored_after_load.
        -- apply Hstream. cbn. apply stored_after_load.
      * apply Hstream. cbn. apply stored_after_load.
Qed.

(** A step adds at most the id [genId] draws next, and changes no record
    under another id. *)
Lemma step_stored (e : event) (w : World) (k : string) (g : FileRecord) :
  stored (step e w) !! k = Some g →
  stored w !! k = Some g ∨ k = next_id w.
Proof.
  destruct e as [req content|req|req| |]; cbn [step]; intros H.
  - assert (E0 : stored (multer_single req content w) = stored w).
    { unfold multer_single. destruct (req_file req); reflexivity. }
    assert (E1 : next_id (multer_single req content w) = next_id w).
    { unfold multer_single. destruct (req_file req); reflexivity. }
    destruct (req_file req) as [file|] eqn:Hfile.
    + destruct (req_body req) as [b|] eqn:Hbody.
      * rewrite (upload_stored _ req file b Hfile Hbody), E0, E1 in H.
        destruct (decide (next_id w = k)) as [<-|Hne]; [now right|].
        rewrite lookup_insert_ne in H by exact Hne. now left.
      * rewrite (upload_no_body _ req file Hfile Hbody), E0 in H. now left.
    + rewrite (upload_no_file _ req Hfile) in H. cbn [snd] in H.
      rewrite E0 in H. now left.
  - unfold respond in H. rewrite meta_eq in H. cbn [snd] in H.
    rewrite stored_after_load in H. now left.
  - destruct (download_stored w req) as [E|E]; rewrite E in H; [now left|].
    apply lookup_delete_Some in H. left. exact (proj2 H).
  - unfold respond, health, bind in H. rewrite loadDB_eq in H. cbn in H.
    rewrite stored_after_load in H. now left.
  - destruct (cleanup_spec w) as (changed & _ & Hsub & _). left. now apply Hsub.
Qed.

Lemma never_issued_frame (w w' : World) (k : string) :
  frame w w' → never_issued w k → never_issued w' k.
Proof.
  intros (_ & E & _ & Hd) H n Hn. rewrite E. apply H. lia.
Qed.

Lemma never_issued_step (e : event) (w : World) (k : string) :
  never_issued w k → never_issued (step e w) k.
Proof. apply never_issued_frame, frame_step. Qed.

Lemma next_id_issued (w : World) (k : string) : never_issued w k → next_id w ≠ k.
Proof. intros H. apply H. lia. Qed.

Lemma step_absent (e : event) (w : World) (k : string) :
  stored w !! k = None → never_issued w k → stored (step e w) !! k = None.
Proof.
  intros Hk Hnever. destruct (stored (step e w) !! k) as [g|] eqn:E; [|reflexivity].
  apply step_stored in E as [E| ->]; [congruence|].
  now apply next_id_issued in Hnever.
Qed.

(** Once an id is out of the store it stays out, as long as [genId] does
    not issue it again. *)
Lemma run_absent (events : list event) (k : string) :
  ∀ w : World,
    stored w !! k = None → never_issued w k → stored (run events w) !! k = None.
Proof.
  induction events as [|e events IH]; intros w Hk Hnever; [exact Hk|].
  rewrite run_cons. apply IH.
  - now apply step_absent.
  - now apply never_issued_step.
Qed.

Lemma issued_ids_empty : issued_ids ∅.
Proof. intros k [g H]. rewrite lookup_empty in H. discriminate. Qed.

Lemma issued_ids_step (e : event) (w : World) :
  issued_ids (stored w) → issued_ids (stored (step e w)).
Proof.
  intros Hw k [g Hg]. apply step_stored in Hg as [Hg| ->].
  - apply Hw. eauto.
  - apply length_next_id.
Qed.

(** X3. Whatever requests and sweeps the server goes through, the keys
    of its store stay ids issued by [genId]: twelve characters long, and
    so none of the names inherited from [Object.prototype]. *)
Theorem issued_ids_run (events : list event) (w : World) :
  issued_ids (stored w) →
  issued_ids (stored (run events w)) ∧
  (∀ k : string, is_Some (stored (run events w) !! k) → k ∉ Object_prototype).
Proof.
  revert w. induction events as [|e events IH]; intros w Hw.
  - split; [exact Hw|]. intros k Hk. apply twelve_not_inherited, Hw, Hk.
  - rewrite run_cons. apply IH. now apply issued_ids_step.
Qed.

(** C1. A request to download a record whose [expiresAt] has passed is
    answered 410. The handler removes the file (unless it cannot be
    removed), takes the record out of the store and writes the store
    file. From then on the id is not in the store, and as long as [genId]
    does not issue it again every request for its metadata or for a
    download is answered 404, whatever happened in between. The store is
    one the server has built: its keys are ids issued by [genId]. *)
Theorem download_expired (w : World) (req : Request) (f : FileRecord) :
  issued_ids (stored w) →
  stored w !! params_id req = Some f →
  expired (clock w (ticks w)) f →
  (respond (download req) w).1 = res_send 410 "Link expired" ∧
  db_file (respond (download req) w).2 =
    Some (Encoded (delete (params_id req) (stored w))) ∧
  db_writes (respond (download req) w).2 = S (db_writes w) ∧
  uploads (respond (download req) w).2 =
    (if bool_decide (path f ∈ busy w) then uploads w
     else delete (path f) (uploads w)) ∧
  stored (respond (download req) w).2 !! params_id req = None ∧
  (∀ (events : list event) (req' : Request),
     never_issued w (params_id req) →
     params_id req' = params_id req →
     stored (run events (respond (download req) w).2) !! params_id req = None ∧
     (respond (meta req') (run events (respond (download req) w).2)).1 =
       res_json 404 [("error", VStr "Not found or expired")] ∧
     (respond (download req') (run events (respond (download req) w).2)).1 =
       res_send 404 "Invalid or expired link").
Proof.
  intros Hids Hf Hexp.
  assert (Hproto : params_id req ∉ Object_prototype).
  { apply twelve_not_inherited, Hids. eauto. }
  rewrite (download_expired_eq w req f Hf Hexp). cbn [fst snd].
  split; [reflexivity|]. split; [reflexivity|].
  split; [cbn; now rewrite db_writes_after_unlink|].
  split.
  { cbn. unfold after_unlink. cbn.
    destruct (uploads w !! path f) eqn:E.
    - destruct (bool_decide (path f ∈ busy w)); reflexivity.
    - rewrite delete_id by exact E. now destruct (bool_decide _). }
  split; [rewrite stored_write_db; apply lookup_delete_eq|].
  intros events req' Hnever Hreq'.
  set (w' := write_db _ _).
  assert (Hgone : stored (run events w') !! params_id req = None).
  { apply run_absent.
    - unfold w'. rewrite stored_write_db. apply lookup_delete_eq.
    - apply (never_issued_frame w); [|exact Hnever].
      pose proof (frame_respond (download req) w (framed_download req)) as Hframe.
      rewrite (download_expired_eq w req f Hf Hexp) in Hframe. exact Hframe. }
  split; [exact Hgone|]. split.
  - apply meta_unknown; rewrite Hreq'; assumption.
  - rewrite download_unknown; [reflexivity| |]; rewrite Hreq'; assumption.
Qed.

(** ** Ids *)

Lemma parse_hex_of_byte (b : byte) (rest : string) :
  parse_hex (hex_of_byte b +:+ rest) =
    match parse_hex rest with Some buf => Some (b :: buf) | None => None end.
Proof. destruct b; reflexivity. Qed.

Lemma parse_toString_hex (buf : list byte) : parse_hex (toString_hex buf) = Some buf.
Proof.
  induction buf as [|b buf IH]; [reflexivity|].
  cbn [toString_hex]. now rewrite parse_hex_of_byte, IH.
Qed.

Lemma hex_of_byte_digits (b : byte) (rest : string) :
  all_chars is_hex_digit (hex_of_byte b +:+ rest) = all_chars is_hex_digit rest.
Proof. destruct b; reflexivity. Qed.

Lemma toString_hex_digits (buf : list byte) :
  all_chars is_hex_digit (toString_hex buf) = true.
Proof.
  induction buf as [|b buf IH]; [reflexivity|].
  cbn [toString_hex]. now rewrite hex_of_byte_digits.
Qed.

(** X4. [genId] draws six bytes and nothing else, and returns them as
    twelve characters among [0-9a-f]; the id can be read back to the six
    bytes, so two calls return the same id only when they drew the same
    bytes. *)
Theorem genId_hex (w : World) :
  genId w = (Returned (next_id w), set_drawn (drawn w + 6) w) ∧
  String.length (next_id w) = 12%nat ∧
  all_chars is_hex_digit (next_id w) = true ∧
  parse_hex (next_id w) = Some (map (entropy w) (seq (drawn w) 6)) ∧
  (∀ w' : World,
     next_id w = next_id w' →
     map (entropy w) (seq (drawn w) 6) = map (entropy w') (seq (drawn w') 6)).
Proof.
  split; [reflexivity|]. split; [apply length_next_id|].
  split; [apply toString_hex_digits|]. split; [apply parse_toString_hex|].
  intros w' E. unfold next_id in E.
  apply (f_equal parse_hex) in E. rewrite !parse_toString_hex in E.
  congruence.
Qed.

(** ** More on the upload route *)

Lemma upload_eq (w : World) (req : Request) (file : UploadedFile) (b : Body)
    (data : string) :
  req_file req = Some file → req_body req = Some b →
  QRCode_toDataURL
    (protocol req +:+ "://" +:+ host req +:+ "/download.html?id=" +:+ next_id w)
    = Some data →
  respond (upload req) w =
    (res_json 200
       [("message", VStr "uploaded"); ("id", VStr (next_id w));
        ("fileUrl",
         VStr (protocol req +:+ "://" +:+ host req +:+ "/download.html?id="
               +:+ next_id w));
        ("qrData", VStr data);
        ("expiresAt", VNum (expiresAt (new_record w file (password b))))],
     print ("Uploaded " +:+ file_originalname file +:+ " -> id=" +:+ next_id w)
       (write_db
          (Encoded (<[ next_id w := new_record w file (password b) ]> (stored w)))
          (set_ticks (S (S (ticks w))) (set_drawn (drawn w + 6) (after_load w))))).
Proof.
  intros Hfile Hbody Hqr. unfold respond, upload, try_catch, bind.
  rewrite Hfile, loadDB_eq, genId_eq. unfold body_password. rewrite Hbody.
  unfold await_QRCode_toDataURL, new_record.
  rewrite next_id_after_load, Hqr. cbn.
  rewrite clock_after_load, ticks_after_load, drawn_after_load. reflexivity.
Qed.

Lemma upload_failed_eq (w : World) (req : Request) (file : UploadedFile) (b : Body) :
  req_file req = Some file → req_body req = Some b →
  QRCode_toDataURL
    (protocol req +:+ "://" +:+ host req +:+ "/download.html?id=" +:+ next_id w)
    = None →
  respond (upload req) w =
    (res_json 500 [("error", VStr "Server error during upload")],
     print "Upload error:"
       (write_db
          (Encoded (<[ next_id w := new_record w file (password b) ]> (stored w)))
          (set_ticks (S (S (ticks w))) (set_drawn (drawn w + 6) (after_load w))))).
Proof.
  intros Hfile Hbody Hqr. unfold respond, upload, try_catch, bind.
  rewrite Hfile, loadDB_eq, genId_eq. unfold body_password. rewrite Hbody.
  unfold await_QRCode_toDataURL, new_record.
  rewrite next_id_after_load, Hqr. cbn.
  rewrite clock_after_load, ticks_after_load, drawn_after_load. reflexivity.
Qed.

(** X5. Without a file the upload is answered 400 and nothing happens: no
    id is drawn, the clock is not read, the store is neither loaded nor
    written. *)
Theorem upload_without_file (w : World) (req : Request) (content : list byte) :
  req_file req = None →
  respond (upload req) w = (res_json 400 [("error", VStr "No file uploaded")], w) ∧
  step (POST_upload req content) w = w.
Proof.
  intros Hfile. split; [now apply upload_no_file|].
  cbn [step]. unfold multer_single. rewrite Hfile.
  now rewrite upload_no_file.
Qed.

(** X6. An upload that goes through answers 200 with the id [genId] drew,
    the link to [download.html] for that id, the QR code of the link and
    the record's [expiresAt]. The record is stored under its own id with
    the names and the path multer gave the file; every other record is as
    before; the store file is written once, the clock is read twice, six
    random bytes are drawn and the upload directory is not touched. *)
Theorem upload_succeeds (w : World) (req : Request) (file : UploadedFile) (b : Body)
    (data : string) :
  req_file req = Some file → req_body req = Some b →
  QRCode_toDataURL
    (protocol req +:+ "://" +:+ host req +:+ "/download.html?id=" +:+ next_id w)
    = Some data →
  (respond (upload req) w).1 =
    res_json 200
      [("message", VStr "uploaded"); ("id", VStr (next_id w));
       ("fileUrl",
        VStr (protocol req +:+ "://" +:+ host req +:+ "/download.html?id="
              +:+ next_id w));
       ("qrData", VStr data);
       ("expiresAt", VNum (clock w (ticks w) + 600000))] ∧
  (∃ f : FileRecord,
     stored (respond (upload req) w).2 !! next_id w = Some f ∧
     id f = next_id w ∧ filename f = file_filename file ∧
     originalName f = file_originalname file ∧ path f = file_path file ∧
     expiresAt f = clock w (ticks w) + 600000) ∧
  (∀ k : string, k ≠ next_id w →
     stored (respond (upload req) w).2 !! k = stored w !! k) ∧
  db_writes (respond (upload req) w).2 = S (db_writes w) ∧
  ticks (respond (upload req) w).2 = (ticks w + 2)%nat ∧
  drawn (respond (upload req) w).2 = (drawn w + 6)%nat ∧
  uploads (respond (upload req) w).2 = uploads w.
Proof.
  intros Hfile Hbody Hqr.
  rewrite (upload_eq w req file b data Hfile Hbody Hqr). cbn [fst snd].
  split; [reflexivity|]. split.
  { exists (new_record w file (password b)). cbn.
    rewrite lookup_insert_eq. repeat split. }
  split.
  { intros k Hk. cbn. now rewrite lookup_insert_ne. }
  cbn. rewrite db_writes_after_load, uploads_after_load.
  repeat split. lia.
Qed.

(** X7. When the QR code cannot be made the upload is answered 500, but
    the record has already been written and stays: the id was drawn, the
    store holds the record, and [/meta] serves it to whoever asks for that
    id. *)
Theorem upload_without_qr (w : World) (req req' : Request) (file : UploadedFile)
    (b : Body) :
  req_file req = Some file → req_body req = Some b →
  QRCode_toDataURL
    (protocol req +:+ "://" +:+ host req +:+ "/download.html?id=" +:+ next_id w)
    = None →
  params_id req' = next_id w →
  (respond (upload req) w).1 =
    res_json 500 [("error", VStr "Server error during upload")] ∧
  stored (respond (upload req) w).2 !! next_id w =
    Some (new_record w file (password b)) ∧
  db_writes (respond (upload req) w).2 = S (db_writes w) ∧
  (respond (meta req') (respond (upload req) w).2).1 =
    metadata (new_record w file (password b)).
Proof.
  intros Hfile Hbody Hqr Hid.
  rewrite (upload_failed_eq w req file b Hfile Hbody Hqr). cbn [fst snd].
  split; [reflexivity|].
  assert (Hst : stored (print "Upload error:"
                  (write_db
                     (Encoded (<[ next_id w := new_record w file (password b) ]>
                                 (stored w)))
                     (set_ticks (S (S (ticks w)))
                        (set_drawn (drawn w + 6) (after_load w)))))
                !! next_id w = Some (new_record w file (password b))).
  { cbn. apply lookup_insert_eq. }
  split; [exact Hst|]. split; [cbn; now rewrite db_writes_after_load|].
  rewrite (meta_present _ req' (new_record w file (password b)));
    [reflexivity | rewrite Hid; exact Hst].
Qed.

(** X8. An upload onto a store file that cannot be read does not fail: the
    warning is logged, and the file is overwritten with a store that holds
    the new record and nothing else. *)
Theorem upload_over_unreadable (w : World) (req : Request) (file : UploadedFile)
    (b : Body) :
  unreadable w →
  req_file req = Some file → req_body req = Some b →
  db_file (respond (upload req) w).2 =
    Some (Encoded {[ next_id w := new_record w file (password b) ]}) ∧
  "Failed to read DB" ∈ console (respond (upload req) w).2 ∧
  status (respond (upload req) w).1 ∈ [200; 500].
Proof.
  intros Hw Hfile Hbody.
  assert (Hempty : stored w = ∅).
  { unfold stored. destruct Hw as [E|E]; now rewrite E. }
  assert (Hload : after_load w = print "Failed to read DB" w).
  { unfold after_load. apply unreadable_readable in Hw. now rewrite Hw. }
  destruct (QRCode_toDataURL
              (protocol req +:+ "://" +:+ host req +:+ "/download.html?id="
               +:+ next_id w)) as [data|] eqn:Hqr.
  - rewrite (upload_eq w req file b data Hfile Hbody Hqr). cbn [fst snd].
    rewrite Hempty, Hload. cbn. split; [reflexivity|]. split.
    + apply list_elem_of_further, list_elem_of_here.
    + apply list_elem_of_here.
  - rewrite (upload_failed_eq w req file b Hfile Hbody Hqr). cbn [fst snd].
    rewrite Hempty, Hload. cbn. split; [reflexivity|]. split.
    + apply list_elem_of_further, list_elem_of_here.
    + apply list_elem_of_further, list_elem_of_here.
Qed.

(** The world an upload leaves, whether or not the QR code could be made. *)
Lemma upload_world (w : World) (req : Request) (file : UploadedFile) (b : Body) :
  req_file req = Some file → req_body req = Some b →
  stored (respond (upload req) w).2 =
    <[ next_id w := new_record w file (password b) ]> (stored w) ∧
  uploads (respond (upload req) w).2 = uploads w ∧
  clock (respond (upload req) w).2 = clock w ∧
  ticks (respond (upload req) w).2 = (ticks w + 2)%nat.
Proof.
  intros Hfile Hbody.
  destruct (QRCode_toDataURL
              (protocol req +:+ "://" +:+ host req +:+ "/download.html?id="
               +:+ next_id w)) as [data|] eqn:Hqr.
  - rewrite (upload_eq w req file b data Hfile Hbody Hqr). cbn.
    rewrite uploads_after_load, clock_after_load. repeat split. lia.
  - rewrite (upload_failed_eq w req file b Hfile Hbody Hqr). cbn.
    rewrite uploads_after_load, clock_after_load. repeat split. lia.
Qed.

Lemma admitted_own_password (req' : Request) (w : World) (file : UploadedFile)
    (p : option string) :
  provided_password req' = default "" p →
  admitted req' (new_record w file p).
Proof.
  intros Hp. unfold admitted. cbn [passwordHash new_record]. rewrite Hp.
  destruct p as [s|]; cbn; [|now left].
  destruct (String.eqb s "") eqn:Hs; cbn; [now left|].
  right. now rewrite Hs.
Qed.

(** X9. Upload, then download. Once multer has stored the bytes and the
    upload handler the record, a download of the new id that supplies the
    password of the upload (none, when none was set) and reads the clock no
    later than the record's [expiresAt] returns exactly the uploaded
    bytes, under the original name of the file when that is not empty. *)
Theorem upload_then_download (w : World) (req req' : Request)
    (file : UploadedFile) (b : Body) (content : list byte) :
  req_file req = Some file → req_body req = Some b →
  params_id req' = next_id w →
  provided_password req' = default "" (password b) →
  clock w (ticks w + 2)%nat ≤ clock w (ticks w) + 600000 →
  (respond (download req') (step (POST_upload req content) w)).1 =
    mkResponse 200
      (Attachment (sendName (new_record w file (password b))) content) ∧
  (file_originalname file ≠ "" →
   sendName (new_record w file (password b)) = file_originalname file).
Proof.
  intros Hfile Hbody Hid Hpwd Hclock. split.
  - cbn [step].
    set (w0 := multer_single req content w).
    assert (Hw0 : stored w0 = stored w ∧ next_id w0 = next_id w ∧
                  clock w0 = clock w ∧ ticks w0 = ticks w ∧
                  uploads w0 !! file_path file = Some content).
    { unfold w0, multer_single. rewrite Hfile. cbn.
      repeat split. apply lookup_insert_eq. }
    destruct Hw0 as (E1 & E2 & E3 & E4 & E5).
    assert (Hrec : new_record w0 file (password b) = new_record w file (password b)).
    { unfold new_record. now rewrite E2, E3, E4. }
    destruct (upload_world w0 req file b Hfile Hbody) as (U1 & U2 & U3 & U4).
    set (w1 := (respond (upload req) w0).2) in *.
    rewrite E2, Hrec in U1.
    rewrite (download_streams_eq w1 req' (new_record w file (password b)) content).
    + reflexivity.
    + rewrite Hid, U1. apply lookup_insert_eq.
    + rewrite U3, U4, E3, E4. unfold expired. cbn [expiresAt new_record]. lia.
    + now apply admitted_own_password.
    + rewrite U2. exact E5.
  - intros Hname. now apply sendName_original.
Qed.

(** X10. An upload adds one record to the count [/health] reports when the
    id is new. When [genId] returns an id that is already in the store,
    the record under it is replaced without notice and the count stays. *)
Theorem upload_counts (w : World) (req : Request) (file : UploadedFile) (b : Body) :
  req_file req = Some file → req_body req = Some b →
  (respond health (respond (upload req) w).2).1 =
    res_json 200
      [("ok", VBool true);
       ("stored", VNum (Z.of_nat (size (stored (respond (upload req) w).2))))] ∧
  (stored w !! next_id w = None →
   size (stored (respond (upload req) w).2) = S (size (stored w))) ∧
  (∀ old : FileRecord, stored w !! next_id w = Some old →
   size (stored (respond (upload req) w).2) = size (stored w) ∧
   stored (respond (upload req) w).2 !! next_id w =
     Some (new_record w file (password b))).
Proof.
  intros Hfile Hbody.
  destruct (upload_world w req file b Hfile Hbody) as (U1 & _).
  split; [|split].
  - unfold respond at 1, health, bind. rewrite loadDB_eq. reflexivity.
  - intros Hnew. rewrite U1. now apply map_size_insert_None.
  - intros old Hold. rewrite U1. split.
    + apply map_size_insert_Some. eauto.
    + apply lookup_insert_eq.
Qed.

(** ** More on the download route *)

Lemma stream_missing (ident : string) (f : FileRecord) (w : World) :
  uploads w !! path f = None →
  stream ident (Own f) w =
    (Returned (res_send 500 "Download failed"), print "Download error" w).
Proof.
  intros Hfile. unfold stream, bind, js_or_else, path_basename, res_download.
  cbn [f_originalName f_path].
  destruct (truthy (VStr (originalName f))); cbn; now rewrite Hfile.
Qed.

Lemma stream_found (ident : string) (f : FileRecord) (content : list byte)
    (w : World) :
  uploads w !! path f = Some content →
  stream ident (Own f) w =
    (Returned (mkResponse 200 (Attachment (sendName f) content)),
     print ("Downloaded id=" +:+ ident +:+ " file=" +:+ sendName f) w).
Proof.
  intros Hfile. unfold stream, bind, js_or_else, sendName, path_basename, res_download.
  cbn [f_originalName f_path].
  destruct (truthy (VStr (originalName f))); cbn; now rewrite Hfile.
Qed.

Lemma download_dangling_eq (w : World) (req : Request) (f : FileRecord) :
  stored w !! params_id req = Some f →
  ¬ expired (clock w (ticks w)) f →
  admitted req f →
  uploads w !! path f = None →
  respond (download req) w =
    (res_send 500 "Download failed",
     print "Download error" (set_ticks (S (ticks w)) w)).
Proof.
  intros Hf Hexp Hadm Hfile. unfold respond, download, bind.
  rewrite loadDB_eq. cbv zeta.
  rewrite (get_own _ _ _ Hf), (after_load_present _ _ _ Hf).
  cbn [absent Date_now f_expiresAt js_gt f_path f_passwordHash].
  apply Z.ltb_nlt in Hexp. rewrite Hexp.
  assert (Hstream :
    stream (params_id req) (Own f) (set_ticks (S (ticks w)) w) =
    (Returned (res_send 500 "Download failed"),
     print "Download error" (set_ticks (S (ticks w)) w))).
  { now apply stream_missing. }
  destruct (truthy (nullable (passwordHash f))) eqn:Hhash.
  - destruct Hadm as [Hno|Hok]; [congruence|].
    rewrite bool_decide_eq_false_2; [now rewrite Hstream|].
    intros Hne. apply Hne. now rewrite Hok.
  - now rewrite Hstream.
Qed.

Lemma download_inherited_eq (w : World) (req : Request) :
  stored w !! params_id req = None →
  params_id req ∈ Object_prototype →
  respond (download req) w =
    (res_send 500 "Internal Server Error", set_ticks (S (ticks w)) (after_load w)).
Proof.
  intros Hf Hp. unfold respond, download, bind. rewrite loadDB_eq. cbv zeta.
  rewrite (get_inherited _ _ Hf Hp). cbn. now rewrite ticks_after_load.
Qed.

(** A download of a record that is not expired writes nothing. *)
Lemma download_live_quiet (w : World) (req : Request) (f : FileRecord) :
  stored w !! params_id req = Some f →
  ¬ expired (clock w (ticks w)) f →
  status (respond (download req) w).1 ∈ [200; 401; 500] ∧
  db_file (respond (download req) w).2 = db_file w ∧
  db_writes (respond (download req) w).2 = db_writes w ∧
  uploads (respond (download req) w).2 = uploads w.
Proof.
  intros Hf Hexp.
  destruct (decide (truthy (nullable (passwordHash f)) = true ∧
                    hashPwd (Some (provided_password req)) ≠ passwordHash f))
    as [[Hhash Hbad]|Hadm].
  - rewrite (download_unauthorized_eq w req f Hf Hexp Hhash Hbad). cbn.
    split; [by_computation|]. repeat split.
  - assert (Hadm' : admitted req f).
    { unfold admitted.
      destruct (truthy (nullable (passwordHash f))); [|now left].
      right. destruct (decide (hashPwd (Some (provided_password req)) = passwordHash f))
        as [E|E]; [exact E|]. exfalso. apply Hadm. now split. }
    destruct (uploads w !! path f) as [content|] eqn:Hfile.
    + rewrite (download_streams_eq w req f content Hf Hexp Hadm' Hfile). cbn.
      split; [by_computation|]. repeat split.
    + rewrite (download_dangling_eq w req f Hf Hexp Hadm' Hfile). cbn.
      split; [by_computation|]. repeat split.
Qed.

Lemma uploads_after_unlink_ne (p q : string) (w : World) :
  q ≠ p → uploads (after_unlink p w) !! q = uploads w !! q.
Proof.
  intros Hne. unfold after_unlink. destruct (uploads w !! p); [|reflexivity].
  destruct (bool_decide (p ∈ busy w)); [reflexivity|].
  cbn. now apply lookup_delete_ne.
Qed.

(** X11. A record whose file is no longer on disk cannot be downloaded: a
    request that passes the expiry and password checks is answered 500
    "Download failed", the failure is logged, and the record stays in the
    store as it was. *)
Theorem download_dangling (w : World) (req : Request) (f : FileRecord) :
  stored w !! params_id req = Some f →
  ¬ expired (clock w (ticks w)) f →
  admitted req f →
  uploads w !! path f = None →
  (respond (download req) w).1 = res_send 500 "Download failed" ∧
  console (respond (download req) w).2 = "Download error" :: console w ∧
  db_file (respond (download req) w).2 = db_file w ∧
  db_writes (respond (download req) w).2 = db_writes w ∧
  stored (respond (download req) w).2 !! params_id req = Some f.
Proof.
  intros Hf Hexp Hadm Hfile.
  rewrite (download_dangling_eq w req f Hf Hexp Hadm Hfile).
  repeat split. exact Hf.
Qed.

(** X12. Whatever the request and the store, [/download/:id] answers with
    one of 200, 401, 404, 410 and 500, and leaves every record under
    another id as it was. Unless the answer is 410 it writes neither the
    store file nor the upload directory; when the answer is 410 the id
    was in the store with an expired record, the store file is written
    once, and no file but that record's is removed. *)
Theorem download_confined (w : World) (req : Request) :
  status (respond (download req) w).1 ∈ [200; 401; 404; 410; 500] ∧
  (∀ k : string, k ≠ params_id req →
     stored (respond (download req) w).2 !! k = stored w !! k) ∧
  (status (respond (download req) w).1 ≠ 410 →
     db_file (respond (download req) w).2 = db_file w ∧
     db_writes (respond (download req) w).2 = db_writes w ∧
     uploads (respond (download req) w).2 = uploads w) ∧
  (status (respond (download req) w).1 = 410 →
     ∃ f : FileRecord,
       stored w !! params_id req = Some f ∧
       expired (clock w (ticks w)) f ∧
       db_writes (respond (download req) w).2 = S (db_writes w) ∧
       ∀ p : string, p ≠ path f →
         uploads (respond (download req) w).2 !! p = uploads w !! p).
Proof.
  destruct (stored w !! params_id req) as [f|] eqn:Hf.
  - destruct (decide (expired (clock w (ticks w)) f)) as [Hexp|Hexp].
    + rewrite (download_expired_eq w req f Hf Hexp). cbn [fst snd status res_send].
      split; [by_computation|]. split; [|split].
      * intros k Hk. rewrite stored_write_db. now apply lookup_delete_ne.
      * intros H. now contradiction H.
      * intros _. exists f. split; [reflexivity|]. split; [exact Hexp|]. split.
        -- cbn. now rewrite db_writes_after_unlink.
        -- intros p Hp. cbn. now rewrite uploads_after_unlink_ne.
    + destruct (download_live_quiet w req f Hf Hexp) as (Hs & E1 & E2 & E3).
      split; [|split; [|split]].
      * repeat (apply elem_of_cons in Hs as [Hs|Hs]; [rewrite Hs; by_computation|]).
        now apply elem_of_nil in Hs.
      * intros k _. unfold stored. now rewrite E1.
      * intros _. auto.
      * intros H. rewrite H in Hs.
        repeat (apply elem_of_cons in Hs as [Hs|Hs]; [discriminate Hs|]).
        now apply elem_of_nil in Hs.
  - destruct (decide (params_id req ∈ Object_prototype)) as [Hp|Hp].
    + rewrite (download_inherited_eq w req Hf Hp). cbn [fst snd status res_send].
      split; [by_computation|]. split; [|split].
      * intros k _. unfold stored. cbn. now rewrite db_file_after_load.
      * intros _. cbn.
        now rewrite db_file_after_load, db_writes_after_load, uploads_after_load.
      * intros H. discriminate H.
    + rewrite (download_unknown w req Hf Hp). cbn [fst snd status res_send].
      split; [by_computation|]. split; [|split].
      * intros k _. now rewrite stored_after_load.
      * intros _.
        now rewrite db_file_after_load, db_writes_after_load, uploads_after_load.
      * intros H. discriminate H.
Qed.

(** X13. An id that is not in the store: [/download/:id] answers 404
    without reading the clock, unless the id is a name inherited from
    [Object.prototype]; then it reads the clock, finds nothing to compare
    and nothing to send, and the request ends in 500. Either way nothing
    is written. *)
Theorem download_absent_id (w : World) (req : Request) :
  stored w !! params_id req = None →
  (params_id req ∉ Object_prototype →
     (respond (download req) w).1 = res_send 404 "Invalid or expired link" ∧
     ticks (respond (download req) w).2 = ticks w) ∧
  (params_id req ∈ Object_prototype →
     (respond (download req) w).1 = res_send 500 "Internal Server Error" ∧
     ticks (respond (download req) w).2 = S (ticks w)) ∧
  db_file (respond (download req) w).2 = db_file w ∧
  db_writes (respond (download req) w).2 = db_writes w ∧
  uploads (respond (download req) w).2 = uploads w.
Proof.
  intros Hf. split; [|split].
  - intros Hp. rewrite (download_unknown w req Hf Hp). cbn.
    split; [reflexivity | apply ticks_after_load].
  - intros Hp. rewrite (download_inherited_eq w req Hf Hp). now cbn.
  - destruct (decide (params_id req ∈ Object_prototype)) as [Hp|Hp].
    + rewrite (download_inherited_eq w req Hf Hp). cbn.
      now rewrite db_file_after_load, db_writes_after_load, uploads_after_load.
    + rewrite (download_unknown w req Hf Hp). cbn.
      now rewrite db_file_after_load, db_writes_after_load, uploads_after_load.
Qed.

(** ** More on the clean-up job *)

Lemma cleanup_loop_files (entries : list (string * FileRecord)) (p : string) :
  ∀ (DB : gmap string FileRecord) (changed : bool) (w : World),
    (∀ j k f, entries !! j = Some (k, f) → path f = p →
       ¬ expired (clock w (ticks w + j)%nat) f) →
    uploads (cleanup_loop entries DB changed w).2 !! p = uploads w !! p.
Proof.
  induction entries as [|[k0 f0] rest IH]; intros DB changed w Hlive; [reflexivity|].
  rewrite cleanup_loop_step.
  destruct (bool_decide (expired (clock w (ticks w)) f0)) eqn:Hexp.
  - apply bool_decide_eq_true_1 in Hexp.
    assert (Hne : p ≠ path f0).
    { intros ->. apply (Hlive 0%nat k0 f0); [reflexivity..|].
      now rewrite Nat.add_0_r. }
    set (w2 := print _ _).
    destruct (fields_after_unlink (path f0) (set_ticks (S (ticks w)) w))
      as (F1 & F2 & _).
    assert (Hticks : ticks w2 = S (ticks w)) by exact F1.
    assert (Hclock : clock w2 = clock w) by exact F2.
    assert (Hup : uploads w2 !! p = uploads w !! p).
    { apply (uploads_after_unlink_ne (path f0) p (set_ticks (S (ticks w)) w) Hne). }
    clearbody w2. rewrite IH; [exact Hup|].
    intros j k f Hj Hp. rewrite Hclock, Hticks.
    replace (S (ticks w) + j)%nat with (ticks w + S j)%nat by lia.
    now apply (Hlive (S j) k f).
  - rewrite IH; [reflexivity|].
    intros j k f Hj Hp. cbn [clock ticks set_ticks].
    replace (S (ticks w) + j)%nat with (ticks w + S j)%nat by lia.
    now apply (Hlive (S j) k f).
Qed.

(** X14. Sweep, then ask. After a sweep during which the clock did not
    fall below its reading at the start, a record that was expired at the
    start is gone for both routes: [/meta] and [/download] answer 404 for
    its id, where before the sweep [/meta] answered 200 and [/download]
    would have answered 410. The store is one the server has built. *)
Theorem cleanup_then_requests (w : World) (req : Request) (f : FileRecord) :
  issued_ids (stored w) →
  (∀ n : nat, (ticks w ≤ n)%nat → clock w (ticks w) ≤ clock w n) →
  stored w !! params_id req = Some f →
  expired (clock w (ticks w)) f →
  (respond (meta req) w).1 = metadata f ∧
  (respond (download req) w).1 = res_send 410 "Link expired" ∧
  (respond (meta req) (cleanup w).2).1 =
    res_json 404 [("error", VStr "Not found or expired")] ∧
  (respond (download req) (cleanup w).2).1 =
    res_send 404 "Invalid or expired link".
Proof.
  intros Hids Hclock Hf Hexp.
  assert (Hproto : params_id req ∉ Object_prototype).
  { apply twelve_not_inherited, Hids. eauto. }
  assert (Hgone : stored (cleanup w).2 !! params_id req = None).
  { destruct (cleanup_spec w) as (changed & _ & _ & _ & Hentry & _).
    destruct (Hentry (params_id req) f Hf) as (j & Hgo & _).
    apply Hgo. unfold expired in *. specialize (Hclock (ticks w + j)%nat). lia. }
  split; [now rewrite (meta_present w req f Hf)|].
  split; [now rewrite (download_expired_eq w req f Hf Hexp)|].
  split; [now apply meta_unknown|].
  now rewrite (download_unknown _ req Hgone Hproto).
Qed.

(** X15. The sweep removes no file but those of the records it finds
    expired: a file that is not the file of any record, or only of records
    the clock never reads past during the sweep, is on disk afterwards
    exactly as before. *)
Theorem cleanup_spares_files (w : World) (p : string) :
  (∀ k f, stored w !! k = Some f → path f = p →
     ∀ n : nat, (ticks w ≤ n)%nat → ¬ expired (clock w n) f) →
  uploads (cleanup w).2 !! p = uploads w !! p.
Proof.
  intros Hlive. unfold cleanup, bind. rewrite loadDB_eq.
  pose proof (cleanup_loop_files (map_to_list (stored w)) p (stored w) false
                (after_load w)) as Hloop.
  destruct (cleanup_loop (map_to_list (stored w)) (stored w) false (after_load w))
    as [[[DB' changed]|e] w1] eqn:Heq; cbn [snd] in *.
  - assert (Hup : uploads w1 !! p = uploads w !! p).
    { rewrite Hloop; [now rewrite uploads_after_load|].
      intros j k f Hj Hp. rewrite clock_after_load, ticks_after_load.
      apply (Hlive k f); [|exact Hp|lia].
      apply elem_of_map_to_list, list_elem_of_lookup. eauto. }
    cbn. destruct changed; exact Hup.
  - rewrite Hloop; [now rewrite uploads_after_load|].
    intros j k f Hj Hp. rewrite clock_after_load, ticks_after_load.
    apply (Hlive k f); [|exact Hp|lia].
    apply elem_of_map_to_list, list_elem_of_lookup. eauto.
Qed.

(** X16. On an empty store the sweep does nothing: it reads no clock and
    writes no file. The same holds when the store file cannot be read: the
    warning is logged and the file is left as it is, unreadable. *)
Theorem cleanup_of_empty_store (w : World) :
  stored w = ∅ →
  cleanup w = (Returned tt, after_load w) ∧
  ticks (cleanup w).2 = ticks w ∧
  db_file (cleanup w).2 = db_file w ∧
  db_writes (cleanup w).2 = db_writes w ∧
  (unreadable w → (cleanup w).2 = print "Failed to read DB" w).
Proof.
  intros Hempty.
  assert (E : cleanup w = (Returned tt, after_load w)).
  { unfold cleanup, bind. rewrite loadDB_eq, Hempty, map_to_list_empty. reflexivity. }
  rewrite E. cbn [snd]. split; [reflexivity|].
  split; [apply ticks_after_load|]. split; [apply db_file_after_load|].
  split; [apply db_writes_after_load|].
  intros Hw. unfold after_load. apply unreadable_readable in Hw. now rewrite Hw.
Qed.

(** X17. While the clock stands still the sweep is a filter: it leaves
    exactly the records that are live at that time, those with
    [expiresAt >= now]. *)
Theorem cleanup_is_filter (w : World) (now : Z) :
  (∀ n : nat, (ticks w ≤ n)%nat → clock w n = now) →
  stored (cleanup w).2 = live now (stored w).
Proof.
  intros Hclock.
  destruct (cleanup_spec w) as (changed & _ & Hsub & _ & Hentry & _).
  cbv zeta in *. apply map_eq. intros k. unfold live.
  destruct (stored (cleanup w).2 !! k) as [g|] eqn:Hk.
  - symmetry. apply map_lookup_filter_Some. pose proof (Hsub k g Hk) as Hold.
    split; [exact Hold|]. cbn.
    destruct (Hentry k g Hold) as (j & Hgo & _).
    intros Hx. rewrite <- (Hclock (ticks w + j)%nat) in Hx by lia.
    apply Hgo in Hx as [Hnone _]. congruence.
  - symmetry. apply map_lookup_filter_None.
    destruct (stored w !! k) as [g|] eqn:Hold; [right|now left].
    intros g' Hg'. injection Hg' as <-. cbn. intros Hlive. apply Hlive.
    destruct (Hentry k g Hold) as (j & _ & Hback).
    rewrite <- (Hclock (ticks w + j)%nat) by lia. now apply Hback.
Qed.

(** ** The upload page *)

Lemma updateTimer_running (expires now : Z) (pg : Page) :
  now < expires →
  updateTimer expires now pg =
    (Returned tt,
     set_expiryText
       (decimal ((expires - now) / 60000) +:+ "m " +:+
        decimal (((expires - now) mod 60000) / 1000) +:+ "s") pg).
Proof.
  intros Hlt. unfold updateTimer. cbv zeta.
  rewrite Z.max_r by lia.
  destruct (Z.leb_spec (expires - now) 0) as [H|H]; [lia|reflexivity].
Qed.

Lemma updateTimer_over (expires now : Z) (pg : Page) :
  expires ≤ now →
  updateTimer expires now pg =
    match ti pg with
    | Uninitialised => (Thrown "ReferenceError", set_expiryText "Expired" pg)
    | Handle _ => (Returned tt, set_ti (Handle false) (set_expiryText "Expired" pg))
    end.
Proof.
  intros Hle. unfold updateTimer. cbv zeta.
  rewrite Z.max_l by lia. cbn. reflexivity.
Qed.

(** X18. While the page's clock is before [expiresAt], [updateTimer] shows
    the time left as whole minutes and seconds: the seconds are below 60,
    together they are the time left in seconds, rounded down, and within
    the ten minutes of a fresh upload the minutes do not exceed ten. The
    timer is left running. *)
Theorem updateTimer_countdown (expires now : Z) (pg : Page) :
  now < expires →
  updateTimer expires now pg =
    (Returned tt,
     set_expiryText
       (decimal ((expires - now) / 60000) +:+ "m " +:+
        decimal (((expires - now) mod 60000) / 1000) +:+ "s") pg) ∧
  0 ≤ (expires - now) / 60000 ∧
  0 ≤ ((expires - now) mod 60000) / 1000 < 60 ∧
  60 * ((expires - now) / 60000) + ((expires - now) mod 60000) / 1000
    = (expires - now) / 1000 ∧
  (expires - now ≤ 600000 → (expires - now) / 60000 ≤ 10) ∧
  ti (updateTimer expires now pg).2 = ti pg.
Proof.
  intros Hlt. rewrite (updateTimer_running expires now pg Hlt).
  split; [reflexivity|].
  set (left := expires - now) in *. assert (0 < left) by (unfold left; lia).
  split; [apply Z.div_pos; lia|].
  split.
  { pose proof (Z.mod_pos_bound left 60000 ltac:(lia)).
    split; [apply Z.div_pos; lia | apply Z.div_lt_upper_bound; lia]. }
  split.
  { rewrite (Z.div_mod left 60000) at 3 by lia.
    replace (60000 * (left / 60000) + left mod 60000)
      with (left mod 60000 + 60 * (left / 60000) * 1000) by lia.
    rewrite Z.div_add by lia. lia. }
  split; [|reflexivity].
  intros Hten. apply Z.div_le_upper_bound; lia.
Qed.

(** X19. At the millisecond of [expiresAt] the page and the server
    disagree: [updateTimer] shows "Expired" ([left <= 0]), while
    [/download/:id] does not yet treat the record as expired
    ([Date.now() > f.expiresAt] is false) and streams the file. *)
Theorem expired_on_the_page_first (w : World) (req : Request) (f : FileRecord)
    (content : list byte) (pg : Page) :
  stored w !! params_id req = Some f →
  clock w (ticks w) = expiresAt f →
  admitted req f →
  uploads w !! path f = Some content →
  expiryText (updateTimer (expiresAt f) (clock w (ticks w)) pg).2 = "Expired" ∧
  (respond (download req) w).1 = mkResponse 200 (Attachment (sendName f) content).
Proof.
  intros Hf Hnow Hadm Hfile. split.
  - rewrite updateTimer_over by lia. destruct (ti pg); reflexivity.
  - rewrite (download_streams_eq w req f content Hf); [reflexivity| |exact Hadm|exact Hfile].
    unfold expired. lia.
Qed.

(** X20. When the reply to the upload arrives with the page's clock
    already at or past [expiresAt], the first call of [updateTimer] reaches
    [clearInterval(ti)] before [ti] is initialised. The exception lands in
    the [catch]: the page shows the link, the QR code and the success
    line, and "Upload failed." next to them; no interval is started. *)
Theorem submit_with_clock_ahead (data : UploadData) (now : Z) (pg : Page) :
  data_expiresAt data ≤ now →
  status_text (submit true (Ok data) now pg) = "✅ File uploaded successfully!" ∧
  link_href (submit true (Ok data) now pg) = data_fileUrl data ∧
  qr_src (submit true (Ok data) now pg) = data_qrData data ∧
  result_hidden (submit true (Ok data) now pg) = false ∧
  expiryText (submit true (Ok data) now pg) = "Expired" ∧
  error_text (submit true (Ok data) now pg) = "Upload failed." ∧
  error_hidden (submit true (Ok data) now pg) = false ∧
  ti (submit true (Ok data) now pg) = Uninitialised ∧
  page_console (submit true (Ok data) now pg) = "ReferenceError" :: page_console pg.
Proof.
  intros Hle. unfold submit, show_result. cbn [negb].
  rewrite updateTimer_over by exact Hle. cbn. repeat split.
Qed.

Lemma submit_in_time (data : UploadData) (now : Z) (pg : Page) :
  now < data_expiresAt data →
  ti (submit true (Ok data) now pg) = Handle true ∧
  error_hidden (submit true (Ok data) now pg) = true ∧
  result_hidden (submit true (Ok data) now pg) = false.
Proof.
  intros Hlt. unfold submit, show_result. cbn [negb].
  rewrite updateTimer_running by exact Hlt. cbn. repeat split.
Qed.

Lemma interval_run_stopped (expires : Z) (nows : list Z) (pg : Page) :
  ti pg = Handle false → interval_run expires nows pg = pg.
Proof.
  intros Hti. induction nows as [|n nows IH]; [reflexivity|].
  unfold interval_run in *. cbn [foldl]. unfold interval_fires at 2.
  rewrite Hti. exact IH.
Qed.

Lemma interval_run_app (expires : Z) (l1 l2 : list Z) (pg : Page) :
  interval_run expires (l1 ++ l2) pg =
    interval_run expires l2 (interval_run expires l1 pg).
Proof. unfold interval_run. apply foldl_app. Qed.

(** While it runs the interval shows a countdown or stops at "Expired". *)
Lemma interval_run_state (expires : Z) (nows : list Z) :
  ∀ pg : Page,
    ti pg = Handle true →
    ti (interval_run expires nows pg) = Handle true ∨
    (ti (interval_run expires nows pg) = Handle false ∧
     expiryText (interval_run expires nows pg) = "Expired").
Proof.
  induction nows as [|n nows IH]; intros pg Hti; [now left|].
  change (interval_run expires (n :: nows) pg)
    with (interval_run expires nows (interval_fires expires n pg)).
  unfold interval_fires. rewrite Hti.
  destruct (Z.lt_ge_cases n expires) as [Hlt|Hge].
  - rewrite updateTimer_running by exact Hlt. apply IH. exact Hti.
  - rewrite updateTimer_over by exact Hge. rewrite Hti. cbn [snd].
    right. rewrite interval_run_stopped by reflexivity. now split.
Qed.

(** X21. After a submission that started the timer, the interval stops
    itself the first time it fires with the page's clock at or past
    [expiresAt]: from then on the page shows "Expired" and further firings
    change nothing. *)
Theorem interval_stops (data : UploadData) (now0 now1 : Z)
    (before after : list Z) (pg : Page) :
  now0 < data_expiresAt data →
  data_expiresAt data ≤ now1 →
  expiryText (interval_run (data_expiresAt data) (before ++ [now1])
                (submit true (Ok data) now0 pg)) = "Expired" ∧
  ti (interval_run (data_expiresAt data) (before ++ [now1])
        (submit true (Ok data) now0 pg)) = Handle false ∧
  interval_run (data_expiresAt data) (before ++ [now1] ++ after)
    (submit true (Ok data) now0 pg) =
  interval_run (data_expiresAt data) (before ++ [now1])
    (submit true (Ok data) now0 pg).
Proof.
  intros Hlt Hge.
  destruct (submit_in_time data now0 pg Hlt) as (Hti & _).
  set (pg0 := submit true (Ok data) now0 pg) in *.
  assert (Hstop :
    ti (interval_run (data_expiresAt data) (before ++ [now1]) pg0) = Handle false ∧
    expiryText (interval_run (data_expiresAt data) (before ++ [now1]) pg0) = "Expired").
  { rewrite interval_run_app.
    destruct (interval_run_state (data_expiresAt data) before pg0 Hti) as [Hrun|[Hoff Htext]].
    - unfold interval_run at 1 3. cbn [foldl]. unfold interval_fires.
      rewrite Hrun, updateTimer_over by exact Hge. rewrite Hrun. now split.
    - rewrite !interval_run_stopped by exact Hoff. now split. }
  destruct Hstop as [Hoff Htext].
  split; [exact Htext|]. split; [exact Hoff|].
  rewrite app_assoc, interval_run_app. now apply interval_run_stopped.
Qed.

(** ** Stored file names *)

Lemma digits_of_uint (d : Decimal.uint) :
  all_chars is_digit (DecimalString.NilEmpty.string_of_uint d) = true.
Proof. induction d; cbn; auto. Qed.

Lemma decimal_digits (n : Z) : 0 ≤ n → all_chars is_digit (decimal n) = true.
Proof.
  intros Hn. unfold decimal. destruct n as [|p|p]; [reflexivity| |lia].
  cbn [Z.to_int DecimalString.NilZero.string_of_int].
  unfold DecimalString.NilZero.string_of_uint.
  destruct (Pos.to_uint p) eqn:E; try (rewrite <- E; apply digits_of_uint).
  reflexivity.
Qed.

Lemma decimal_inj (m n : Z) : decimal m = decimal n → m = n.
Proof.
  intros E. apply DecimalZ.to_int_inj.
  assert (H : ∀ z, DecimalString.NilZero.int_of_string (decimal z) = Some (Z.to_int z)).
  { intros z. apply DecimalString.NilZero.isi; destruct z as [|p|p]; cbn;
      try discriminate; intros H; injection H as H;
      now apply DecimalPos.Unsigned.to_uint_nonnil in H. }
  pose proof (H m) as Hm. rewrite E, H in Hm. now injection Hm.
Qed.

(** Two texts that begin with digits and go on with the same character,
    which is no digit, agree on the digits and on the rest. *)
Lemma digits_then (c : Ascii.ascii) (a a' t t' : string) :
  is_digit c = false →
  all_chars is_digit a = true → all_chars is_digit a' = true →
  a +:+ String c t = a' +:+ String c t' → a = a' ∧ t = t'.
Proof.
  intros Hc. revert a'. induction a as [|x a IH]; intros [|x' a'] Ha Ha' E; cbn in *.
  - injection E as E. now split.
  - injection E as -> _. apply andb_prop in Ha' as [Hx _]. congruence.
  - injection E as -> _. apply andb_prop in Ha as [Hx _]. congruence.
  - injection E as -> E. apply andb_prop in Ha as [_ Ha].
    apply andb_prop in Ha' as [_ Ha'].
    destruct (IH a' Ha Ha' E) as [-> ->]. now split.
Qed.

Lemma digits_then_extension (a a' e e' : string) :
  all_chars is_digit a = true → all_chars is_digit a' = true →
  extension e → extension e' →
  a +:+ e = a' +:+ e' → a = a' ∧ e = e'.
Proof.
  revert a'. induction a as [|x a IH]; intros [|x' a'] Ha Ha' He He' E; cbn in *.
  - now split.
  - apply andb_prop in Ha' as [Hx _].
    destruct He as [-> |[rest ->]]; [discriminate E|].
    injection E as <- _. discriminate Hx.
  - apply andb_prop in Ha as [Hx _].
    destruct He' as [-> |[rest ->]]; [discriminate E|].
    injection E as -> _. discriminate Hx.
  - injection E as -> E. apply andb_prop in Ha as [_ Ha].
    apply andb_prop in Ha' as [_ Ha'].
    destruct (IH a' Ha Ha' He He' E) as [-> ->]. now split.
Qed.

(** X22. The name multer stores a file under is the reading of the clock,
    a dash, the random number and the extension of the original name. For
    readings and random numbers that are not negative, two files get the
    same stored name only when the clock read the same millisecond, the
    random numbers are the same and so are the extensions. *)
Theorem storage_filename_collision (extname : string → string) (w w' : World)
    (rnd rnd' : Z) (name name' : string) :
  0 ≤ clock w (ticks w) → 0 ≤ clock w' (ticks w') → 0 ≤ rnd → 0 ≤ rnd' →
  extension (extname name) → extension (extname name') →
  (storage_filename extname rnd name w).1 =
    Returned (decimal (clock w (ticks w)) +:+ "-" +:+ decimal rnd +:+ extname name) ∧
  ((storage_filename extname rnd name w).1 =
     (storage_filename extname rnd' name' w').1 →
   clock w (ticks w) = clock w' (ticks w') ∧ rnd = rnd' ∧
   extname name = extname name').
Proof.
  intros Hn Hn' Hr Hr' He He'. split; [reflexivity|].
  unfold storage_filename, bind, Date_now, ret. cbn [fst].
  intros E. injection E as E.
  change ("-" +:+ ?x) with (String "-" x) in E.
  apply digits_then in E as [E1 E2];
    [|reflexivity|now apply decimal_digits|now apply decimal_digits].
  apply digits_then_extension in E2 as [E2 E3];
    [|now apply decimal_digits|now apply decimal_digits|exact He|exact He'].
  apply decimal_inj in E1. apply decimal_inj in E2. now repeat split.
Qed.

(** ** The life of a record *)

Lemma step_keeps_live (e : event) (w : World) (k : string) (f : FileRecord) :
  stored w !! k = Some f →
  never_issued w k →
  (∀ n : nat, ¬ expired (clock w n) f) →
  stored (step e w) !! k = Some f.
Proof.
  intros Hf Hnever Hlive.
  destruct e as [req content|req|req| |]; cbn [step].
  - assert (E0 : stored (multer_single req content w) = stored w).
    { unfold multer_single. destruct (req_file req); reflexivity. }
    assert (E1 : next_id (multer_single req content w) = next_id w).
    { unfold multer_single. destruct (req_file req); reflexivity. }
    destruct (req_file req) as [file|] eqn:Hfile.
    + destruct (req_body req) as [b|] eqn:Hbody.
      * rewrite (upload_stored _ req file b Hfile Hbody), E0, E1.
        rewrite lookup_insert_ne; [exact Hf|]. now apply next_id_issued.
      * now rewrite (upload_no_body _ req file Hfile Hbody), E0.
    + rewrite (upload_no_file _ req Hfile). cbn [snd]. now rewrite E0.
  - unfold respond. rewrite meta_eq. cbn [snd]. now rewrite stored_after_load.
  - destruct (decide (params_id req = k)) as [<-|Hne].
    + destruct (download_live_quiet w req f Hf (Hlive (ticks w))) as (_ & E & _).
      unfold stored. rewrite E. exact Hf.
    + destruct (download_stored w req) as [E|E]; rewrite E; [exact Hf|].
      now rewrite lookup_delete_ne.
  - unfold respond, health, bind. rewrite loadDB_eq. cbn.
    now rewrite stored_after_load.
  - destruct (cleanup_spec w) as (changed & _ & Hsub & _ & Hentry & _).
    cbv zeta in *. destruct (Hentry k f Hf) as (j & _ & Hback).
    destruct (stored (cleanup w).2 !! k) as [g|] eqn:E.
    + apply Hsub in E. congruence.
    + exfalso. now apply (Hlive (ticks w + j)%nat), Hback.
Qed.

(** X23. A record does not change while it is in the store, and it is not
    removed early. As long as [genId] does not issue its id again, whatever
    record is found under the id after any sequence of uploads, requests
    and sweeps is the one that was there, [expiresAt] included; and if the
    clock never reads past its [expiresAt], the record is still there. *)
Theorem record_lifetime (events : list event) (w : World) (k : string)
    (f : FileRecord) :
  stored w !! k = Some f →
  never_issued w k →
  (∀ g : FileRecord, stored (run events w) !! k = Some g → g = f) ∧
  ((∀ n : nat, clock w n ≤ expiresAt f) → stored (run events w) !! k = Some f).
Proof.
  revert w. induction events as [|e events IH]; intros w Hf Hnever.
  - cbn. split; [congruence | intros _; exact Hf].
  - rewrite run_cons.
    pose proof (never_issued_step e w k Hnever) as Hnever'.
    destruct (frame_step e w) as (Hclock & _).
    split.
    + intros g Hg. destruct (stored (step e w) !! k) as [f'|] eqn:Hstep.
      * assert (f' = f).
        { apply step_stored in Hstep as [E| ->]; [congruence|].
          now apply next_id_issued in Hnever. }
        subst f'. now apply (proj1 (IH (step e w) Hstep Hnever')).
      * pose proof (run_absent events k (step e w) Hstep Hnever'). congruence.
    + intros Hlive.
      assert (Hstep : stored (step e w) !! k = Some f).
      { apply step_keeps_live; [exact Hf|exact Hnever|].
        intros n. unfold expired. specialize (Hlive n). lia. }
      apply (proj2 (IH (step e w) Hstep Hnever')).
      intros n. rewrite Hclock. apply Hlive.
Qed.

End Server.


(** ** The properties on the sample data *)

Lemma issued_ids_singleton (f : FileRecord) :
  issued_ids {[ "2a2a2a2a2a2a" := f ]}.
Proof.
  intros k [g H]. apply lookup_singleton_Some in H as [<- _]. reflexivity.
Qed.

(** C1 on [outdated]: the download of the expired [archive] is answered
    410; the random source never spells its id, and after a further upload
    and a sweep both routes answer 404 for it. *)
Lemma download_expired_witness :
  (respond (download sha0 basename0 (request "0123456789ab" None)) outdated).1 =
    res_send 410 "Link expired" ∧
  (respond (meta (request "0123456789ab" None))
     (run sha0 qr0 basename0
        [POST_upload (upload_request None) [x68; x69]; Interval]
        (respond (download sha0 basename0 (request "0123456789ab" None))
           outdated).2)).1 =
    res_json 404 [("error", VStr "Not found or expired")] ∧
  (respond (download sha0 basename0 (request "0123456789ab" None))
     (run sha0 qr0 basename0
        [POST_upload (upload_request None) [x68; x69]; Interval]
        (respond (download sha0 basename0 (request "0123456789ab" None))
           outdated).2)).1 =
    res_send 404 "Invalid or expired link".
Proof.
  assert (Hids : issued_ids (stored outdated)).
  { intros k [g Hk].
    change (stored outdated)
      with ({[ "0123456789ab" := archive ]} : gmap string FileRecord) in Hk.
    apply lookup_singleton_Some in Hk as [<- _]. reflexivity. }
  assert (Hf : stored outdated !! "0123456789ab" = Some archive).
  { vm_compute. reflexivity. }
  assert (Hexp : expired (clock outdated (ticks outdated)) archive).
  { vm_compute. reflexivity. }
  assert (Hnever : never_issued outdated "0123456789ab").
  { intros n _. vm_compute. discriminate. }
  exact (let H := download_expired sha0 qr0 basename0 outdated
                    (request "0123456789ab" None) archive Hids Hf Hexp in
         conj (proj1 H)
           (proj2 (proj2 (proj2 (proj2 (proj2 (proj2 H))))
                     [POST_upload (upload_request None) [x68; x69]; Interval]
                     (request "0123456789ab" None) Hnever eq_refl))).
Defined.

(** C1, as stated, fails on [stale]: the download of the expired [notes]
    is answered 410 and the record is gone, but the next upload is given
    the same id by [genId], and from then on the requests for the id are
    answered 200, not 404. *)
Lemma download_expired_counterexample :
  stored stale !! "2a2a2a2a2a2a" = Some notes ∧
  expired (clock stale (ticks stale)) notes ∧
  (respond (download sha0 basename0 (request "2a2a2a2a2a2a" None)) stale).1 =
    res_send 410 "Link expired" ∧
  stored (respond (download sha0 basename0 (request "2a2a2a2a2a2a" None)) stale).2
    !! "2a2a2a2a2a2a" = None ∧
  status
    (respond (meta (request "2a2a2a2a2a2a" None))
       (run sha0 qr0 basename0 [POST_upload (upload_request None) [x68; x69]]
          (respond (download sha0 basename0 (request "2a2a2a2a2a2a" None))
             stale).2)).1 = 200 ∧
  status
    (respond (download sha0 basename0 (request "2a2a2a2a2a2a" None))
       (run sha0 qr0 basename0 [POST_upload (upload_request None) [x68; x69]]
          (respond (download sha0 basename0 (request "2a2a2a2a2a2a" None))
             stale).2)).1 = 200.
Proof.
  split; [vm_compute; reflexivity|].
  split; [unfold expired, stale, world, ticking, notes; cbn; lia|].
  split; [vm_compute; reflexivity|].
  split; [vm_compute; reflexivity|].
  split; vm_compute; reflexivity.
Qed.

(** C2 on [shared]: the wrong password ["abcd"] is answered 401. *)
Lemma download_unauthorized_witness :
  (respond (download sha0 basename0 (request "2a2a2a2a2a2a" (Some "abcd"))) shared).1 =
    res_send 401 "Invalid password".
Proof.
  refine (proj1 (download_unauthorized sha0 basename0 shared
                   (request "2a2a2a2a2a2a" (Some "abcd")) notes "sha256:abc"
                   _ _ _ _ _)).
  - vm_compute. reflexivity.
  - vm_compute. discriminate.
  - reflexivity.
  - discriminate.
  - right. vm_compute. discriminate.
Defined.

(** C3 on [fresh]: the record of an upload, with the two readings 1000 and
    1001 of the clock. *)
Lemma upload_expiry_witness :
  TTL = 600000 ∧
  expiresAt (new_record sha0 fresh (mkFile "1-2.txt" "notes.txt" "uploads/1-2.txt")
               (Some "abc")) = 1000 + TTL.
Proof.
  refine (let H := upload_expiry sha0 qr0 fresh (upload_request (Some "abc"))
                     "2a2a2a2a2a2a"
                     (new_record sha0 fresh
                        (mkFile "1-2.txt" "notes.txt" "uploads/1-2.txt") (Some "abc"))
                     _ _ in
          conj (proj1 H) (proj1 (proj2 H))).
  - vm_compute. reflexivity.
  - vm_compute. discriminate.
Defined.

(** C3, as stated, fails on [fresh]: the clock moves from 1000 to 1001
    between the two calls of [Date.now()], and the record has
    [expiresAt = 601000] but [uploadedAt + 600000 = 601001]. *)
Lemma upload_expiry_counterexample :
  ∃ f : FileRecord,
    stored (respond (upload sha0 qr0 (upload_request (Some "abc"))) fresh).2
      !! "2a2a2a2a2a2a" = Some f ∧
    stored fresh !! "2a2a2a2a2a2a" = None ∧
    uploadedAt f = 1001 ∧
    expiresAt f = 601000 ∧
    expiresAt f ≠ uploadedAt f + 600000.
Proof.
  exists notes. split; [vm_compute; reflexivity|].
  split; [reflexivity|]. split; [reflexivity|]. split; [reflexivity|].
  cbn. lia.
Qed.

(** C4 on [shared]: with the right password, [notes] is streamed under its
    original name. *)
Lemma download_streams_witness :
  (respond (download sha0 basename0 (request "2a2a2a2a2a2a" (Some "abc"))) shared).1 =
    mkResponse 200 (Attachment (sendName basename0 notes) [x68; x69]).
Proof.
  refine (proj1 (download_streams sha0 qr0 basename0 shared
                   (request "2a2a2a2a2a2a" (Some "abc")) notes [x68; x69]
                   _ _ _ _)).
  - vm_compute. reflexivity.
  - vm_compute. discriminate.
  - right. vm_compute. reflexivity.
  - vm_compute. reflexivity.
Defined.

(** C4, as stated, fails on [unnamed]: the download succeeds, but the
    record's original name is empty and the file is offered under the
    base name of its storage path. *)
Lemma download_streams_counterexample :
  stored unnamed !! "2a2a2a2a2a2a" = Some nameless ∧
  respond (download sha0 basename0 (request "2a2a2a2a2a2a" None)) unnamed =
    (mkResponse 200 (Attachment "1-2.txt" [x68; x69]),
     print "Downloaded id=2a2a2a2a2a2a file=1-2.txt" (set_ticks 1 unnamed)) ∧
  "1-2.txt" ≠ originalName nameless.
Proof.
  split; [vm_compute; reflexivity|]. split; [vm_compute; reflexivity|].
  discriminate.
Qed.

(** C5 on [stale]: the sweep removes the expired [notes]. *)
Lemma cleanup_sweeps_witness :
  stored (cleanup stale).2 !! "2a2a2a2a2a2a" = None.
Proof.
  refine (proj1 (proj1 (proj2 (cleanup_sweeps stale _)) "2a2a2a2a2a2a" notes _ _)).
  - intros n Hn. unfold stale, world, ticking. cbn. lia.
  - vm_compute. reflexivity.
  - vm_compute. reflexivity.
Defined.

(** C5, as stated, fails on [on_the_dot]: the clock stands at 601000
    throughout the sweep, [notes] has [expiresAt = 601000], and the record
    is still in the store afterwards although [expiresAt > now] is
    false. *)
Lemma cleanup_sweeps_counterexample :
  (∀ n : nat, clock on_the_dot n = 601000) ∧
  stored (cleanup on_the_dot).2 !! "2a2a2a2a2a2a" = Some notes ∧
  ¬ (expiresAt notes > clock on_the_dot (ticks on_the_dot)).
Proof.
  split; [reflexivity|]. split; [vm_compute; reflexivity|].
  unfold on_the_dot, world, stopped, notes. cbn. lia.
Qed.

(** C6 fails on the empty store: ["constructor"] was never an id, yet
    [DB["constructor"]] is the function every object inherits, [!f] is
    false, and [/meta/constructor] is answered 200 with the one member
    that is not [undefined]. The same request to [/download] is answered
    500, not 404. *)
Theorem meta_inherited_name :
  stored fresh !! "constructor" = None ∧
  (respond (meta (request "constructor" None)) fresh).1 =
    mkResponse 200 (Json [("passwordProtected", VBool false)]) ∧
  (respond (download sha0 basename0 (request "constructor" None)) fresh).1 =
    res_send 500 "Internal Server Error".
Proof.
  split; [reflexivity|]. split; vm_compute; reflexivity.
Qed.

(** C8, as stated, fails on [stale]: the only record has expired, so no
    record is live, and [/health] reports one stored record. *)
Lemma health_counts_records_counterexample :
  (respond health stale).1 =
    res_json 200 [("ok", VBool true); ("stored", VNum 1)] ∧
  size (live (clock stale (ticks stale)) (stored stale)) = 0%nat.
Proof.
  split; vm_compute; reflexivity.
Qed.

(** C10 on [stale]: the metadata of the expired [notes] is still served. *)
Lemma meta_ignores_expiry_witness :
  respond (meta (request "2a2a2a2a2a2a" None)) stale = (metadata notes, stale).
Proof.
  refine (proj1 (meta_ignores_expiry stale (request "2a2a2a2a2a2a" None) notes _ _)).
  - vm_compute. reflexivity.
  - vm_compute. reflexivity.
Defined.

(** X2 on [stale]: the id of [notes] is no inherited name, and its
    metadata is served. *)
Lemma meta_found_or_404_witness :
  respond (meta (request "2a2a2a2a2a2a" None)) stale = (metadata notes, stale).
Proof.
  refine (proj1 (proj1 (meta_found_or_404 stale (request "2a2a2a2a2a2a" None) _)
                   notes _)).
  - by_computation.
  - vm_compute. reflexivity.
Defined.

(** X3 on [fresh]: after an upload and a sweep the store holds issued ids
    only. *)
Lemma issued_ids_run_witness :
  issued_ids
    (stored (run sha0 qr0 basename0
               [POST_upload (upload_request None) [x68; x69]; Interval] fresh)).
Proof.
  refine (proj1 (issued_ids_run sha0 qr0 basename0
                   [POST_upload (upload_request None) [x68; x69]; Interval] fresh _)).
  apply issued_ids_empty.
Defined.

(** ** The further properties on the sample data *)

(** X5 on [fresh]: a request without a file. *)
Lemma upload_without_file_witness :
  respond (upload sha0 qr0 (request "" None)) fresh =
    (res_json 400 [("error", VStr "No file uploaded")], fresh).
Proof.
  refine (proj1 (upload_without_file sha0 qr0 basename0 fresh (request "" None) [] _)).
  reflexivity.
Defined.

(** X6 on [fresh]: one write, two readings of the clock, six bytes. *)
Lemma upload_succeeds_witness :
  db_writes (respond (upload sha0 qr0 (upload_request (Some "abc"))) fresh).2 = 1%nat.
Proof.
  refine (proj1 (proj2 (proj2 (proj2
    (upload_succeeds sha0 qr0 fresh (upload_request (Some "abc"))
       (mkFile "1-2.txt" "notes.txt" "uploads/1-2.txt") (mkBody (Some "abc"))
       "data:image/png;base64,http://localhost:3000/download.html?id=2a2a2a2a2a2a"
       _ _ _))))).
  - reflexivity.
  - reflexivity.
  - vm_compute. reflexivity.
Defined.

(** X7 on [fresh], with an encoder that fails. *)
Lemma upload_without_qr_witness :
  (respond (upload sha0 no_qr (upload_request None)) fresh).1 =
    res_json 500 [("error", VStr "Server error during upload")].
Proof.
  refine (proj1 (upload_without_qr sha0 no_qr fresh (upload_request None)
                   (request "2a2a2a2a2a2a" None)
                   (mkFile "1-2.txt" "notes.txt" "uploads/1-2.txt") (mkBody None)
                   _ _ _ _)).
  - reflexivity.
  - reflexivity.
  - reflexivity.
  - vm_compute. reflexivity.
Defined.

(** X8 on [corrupt]. *)
Lemma upload_over_unreadable_witness :
  "Failed to read DB" ∈
    console (respond (upload sha0 qr0 (upload_request None)) corrupt).2.
Proof.
  refine (proj1 (proj2 (upload_over_unreadable sha0 qr0 corrupt (upload_request None)
                          (mkFile "1-2.txt" "notes.txt" "uploads/1-2.txt")
                          (mkBody None) _ _ _))).
  - right. reflexivity.
  - reflexivity.
  - reflexivity.
Defined.

(** X9 on [fresh]: the bytes [hi] come back under the name [notes.txt]. *)
Lemma upload_then_download_witness :
  sendName basename0
    (new_record sha0 fresh (mkFile "1-2.txt" "notes.txt" "uploads/1-2.txt")
       (Some "abc")) = "notes.txt".
Proof.
  refine (proj2 (upload_then_download sha0 qr0 basename0 fresh
                   (upload_request (Some "abc"))
                   (request "2a2a2a2a2a2a" (Some "abc"))
                   (mkFile "1-2.txt" "notes.txt" "uploads/1-2.txt")
                   (mkBody (Some "abc")) [x68; x69] _ _ _ _ _) _).
  - reflexivity.
  - reflexivity.
  - vm_compute. reflexivity.
  - reflexivity.
  - vm_compute. discriminate.
  - discriminate.
Defined.

(** X10 on [fresh]: the first upload makes the count one. *)
Lemma upload_counts_witness :
  size (stored (respond (upload sha0 qr0 (upload_request None)) fresh).2) = 1%nat.
Proof.
  refine (proj1 (proj2 (upload_counts sha0 qr0 fresh (upload_request None)
                          (mkFile "1-2.txt" "notes.txt" "uploads/1-2.txt")
                          (mkBody None) _ _)) _).
  - reflexivity.
  - reflexivity.
  - vm_compute. reflexivity.
Defined.

(** X11 on [dangling]. *)
Lemma download_dangling_witness :
  (respond (download sha0 basename0 (request "2a2a2a2a2a2a" (Some "abc"))) dangling).1 =
    res_send 500 "Download failed".
Proof.
  refine (proj1 (download_dangling sha0 basename0 dangling
                   (request "2a2a2a2a2a2a" (Some "abc")) notes _ _ _ _)).
  - vm_compute. reflexivity.
  - vm_compute. discriminate.
  - right. vm_compute. reflexivity.
  - vm_compute. reflexivity.
Defined.

(** X13 on [fresh]: an id nobody issued. *)
Lemma download_absent_id_witness :
  db_writes (respond (download sha0 basename0 (request "0123456789ab" None)) fresh).2 =
    db_writes fresh.
Proof.
  refine (proj1 (proj2 (proj2 (proj2
    (download_absent_id sha0 basename0 fresh (request "0123456789ab" None) _))))).
  vm_compute. reflexivity.
Defined.

(** X14 on [stale]. *)
Lemma cleanup_then_requests_witness :
  (respond (meta (request "2a2a2a2a2a2a" None)) (cleanup stale).2).1 =
    res_json 404 [("error", VStr "Not found or expired")].
Proof.
  refine (proj1 (proj2 (proj2
    (cleanup_then_requests sha0 basename0 stale (request "2a2a2a2a2a2a" None) notes
       _ _ _ _)))).
  - apply issued_ids_singleton.
  - intros n Hn. unfold stale, world, ticking. cbn. lia.
  - vm_compute. reflexivity.
  - vm_compute. reflexivity.
Defined.

(** X15 on [on_the_dot]: the file of [notes] survives the sweep. *)
Lemma cleanup_spares_files_witness :
  uploads (cleanup on_the_dot).2 !! "uploads/1-2.txt" =
    uploads on_the_dot !! "uploads/1-2.txt".
Proof.
  refine (cleanup_spares_files on_the_dot "uploads/1-2.txt" _).
  intros k f Hk _ n _.
  change (stored on_the_dot)
    with ({[ "2a2a2a2a2a2a" := notes ]} : gmap string FileRecord) in Hk.
  apply lookup_singleton_Some in Hk as [_ <-].
  unfold expired, on_the_dot, world, stopped, notes. cbn. lia.
Defined.

(** X16 on [corrupt]. *)
Lemma cleanup_of_empty_store_witness :
  cleanup corrupt = (Returned tt, after_load corrupt).
Proof.
  refine (proj1 (cleanup_of_empty_store corrupt _)). reflexivity.
Defined.

(** X17 on [on_the_dot]. *)
Lemma cleanup_is_filter_witness :
  stored (cleanup on_the_dot).2 = live 601000 (stored on_the_dot).
Proof.
  refine (cleanup_is_filter on_the_dot 601000 _).
  intros n _. reflexivity.
Defined.

(** X18: 125.5 seconds before the expiry the page shows [2m 5s]. *)
Lemma updateTimer_countdown_witness :
  updateTimer 601000 475500 blank_page =
    (Returned tt, set_expiryText "2m 5s" blank_page).
Proof.
  refine (proj1 (updateTimer_countdown 601000 475500 blank_page _)). lia.
Defined.

(** X19 on [on_the_dot]. *)
Lemma expired_on_the_page_first_witness :
  expiryText (updateTimer (expiresAt notes) (clock on_the_dot (ticks on_the_dot))
                blank_page).2 = "Expired".
Proof.
  refine (proj1 (expired_on_the_page_first sha0 basename0 on_the_dot
                   (request "2a2a2a2a2a2a" (Some "abc")) notes [x68; x69] blank_page
                   _ _ _ _)).
  - vm_compute. reflexivity.
  - reflexivity.
  - right. vm_compute. reflexivity.
  - vm_compute. reflexivity.
Defined.

(** X20: the reply arrives when the page's clock reads 601000. *)
Lemma submit_with_clock_ahead_witness :
  error_text (submit true (Ok reply_data) 601000 blank_page) = "Upload failed.".
Proof.
  refine (proj1 (proj2 (proj2 (proj2 (proj2 (proj2
    (submit_with_clock_ahead reply_data 601000 blank_page _))))))).
  unfold reply_data. cbn. lia.
Defined.

(** X21: the interval fires at 2000, at 601000 and at 602000. *)
Lemma interval_stops_witness :
  ti (interval_run (data_expiresAt reply_data) ([2000] ++ [601000])
        (submit true (Ok reply_data) 1000 blank_page)) = Handle false.
Proof.
  refine (proj1 (proj2 (interval_stops reply_data 1000 601000 [2000] [602000]
                          blank_page _ _))).
  - unfold reply_data. cbn. lia.
  - unfold reply_data. cbn. lia.
Defined.

(** X22 on [fresh]: the name of [notes.txt] stored at 1000 with the random
    number 42. *)
Lemma storage_filename_collision_witness :
  (storage_filename extname0 42 "notes.txt" fresh).1 =
    Returned (decimal (clock fresh (ticks fresh)) +:+ "-" +:+ decimal 42
              +:+ extname0 "notes.txt").
Proof.
  refine (proj1 (storage_filename_collision extname0 fresh fresh 42 42
                   "notes.txt" "notes.txt" _ _ _ _ _ _)).
  - vm_compute. discriminate.
  - vm_compute. discriminate.
  - lia.
  - lia.
  - right. exists "txt". reflexivity.
  - right. exists "txt". reflexivity.
Defined.

(** X23 on a world whose clock stands at the [expiresAt] of [notes], with
    [notes] under an id [genId] cannot return there. *)
Lemma record_lifetime_witness :
  stored (run sha0 qr0 basename0
            [Interval; GET_health; POST_download (request "0123456789ab" None)]
            (world (stopped 601000) {[ "0123456789ab" := notes ]} on_disk))
    !! "0123456789ab" = Some notes.
Proof.
  refine (proj2 (record_lifetime sha0 qr0 basename0
                   [Interval; GET_health; POST_download (request "0123456789ab" None)]
                   (world (stopped 601000) {[ "0123456789ab" := notes ]} on_disk)
                   "0123456789ab" notes _ _) _).
  - vm_compute. reflexivity.
  - intros n _. vm_compute. discriminate.
  - intros n. unfold world, stopped, notes. cbn. lia.
Defined.
